(** * trello-cli: a shallow embedding of the API client and the card workflow

    The development follows the three source modules:
    - [constants.py]  : the constants of the tool;
    - [src/api.py]    : the HTTP wrappers around the Trello REST API;
    - [src/cli.py]    : the interactive workflow that creates a card.

    Python values are dynamically typed, so payloads received from the
    service are kept as a small universe of values with the failures
    (KeyError, TypeError) that Python raises on them.  The terminal and the
    network are modelled as scripts: the lines that the user will type and
    the replies that the service will give.  Every action returns its
    result, the remaining scripts and the events it produced, in order. *)

From Stdlib Require Import ZArith Ascii String.
From stdpp Require Import base gmap strings list pretty.

Set Warnings "-register-all".
Open Scope string_scope.
Open Scope list_scope.
Open Scope nat_scope.

(** ** Python values and builtins *)

Module Py.

(** Values as [json.loads] builds them.  A dict keeps its insertion order,
    as in Python; numbers are integers. *)
Inductive value : Type :=
| VNone
| VBool (b : bool)
| VInt (z : Z)
| VStr (s : string)
| VList (l : list value)
| VDict (d : list (string * value)).

(** The exceptions the program can meet.  All but [SystemExit] derive from
    [Exception]. *)
Inductive exn : Type :=
| HTTPError (status_code : Z)
| ConnectionError
| JSONDecodeError
| EOFError
| KeyError (key : string)
| TypeError
| SystemExit (code : Z).

Definition is_Exception (e : exn) : bool :=
  match e with SystemExit _ => false | _ => true end.

Definition is_HTTPError (e : exn) : bool :=
  match e with HTTPError _ => true | _ => false end.

(** The result of running a piece of code: a value, a raised exception,
    or [Diverge] when a loop ran past its bound. *)
Inductive result (A : Type) : Type :=
| Ok (a : A)
| Raise (e : exn)
| Diverge.
Arguments Ok {A} a.
Arguments Raise {A} e.
Arguments Diverge {A}.

(** [bool(v)] *)
Definition truthy (v : value) : bool :=
  match v with
  | VNone => false
  | VBool b => b
  | VInt z => negb (z =? 0)%Z
  | VStr s => negb (String.eqb s "")
  | VList l => match l with [] => false | _ => true end
  | VDict d => match d with [] => false | _ => true end
  end.

(** Dictionaries with string keys, in insertion order. *)
Fixpoint dict_get {A} (d : list (string * A)) (k : string) : option A :=
  match d with
  | [] => None
  | (k', v) :: d' => if String.eqb k' k then Some v else dict_get d' k
  end.

(** [d[k] = v]: replaces the value of an existing key in place, appends a
    new key at the end. *)
Fixpoint dict_set {A} (d : list (string * A)) (k : string) (v : A)
  : list (string * A) :=
  match d with
  | [] => [(k, v)]
  | (k', v') :: d' =>
      if String.eqb k' k then (k', v) :: d' else (k', v') :: dict_set d' k v
  end.

Definition keys {A} (d : list (string * A)) : list string := map fst d.

(** [k in d] *)
Definition dict_mem {A} (k : string) (d : list (string * A)) : bool :=
  match dict_get d k with Some _ => true | None => false end.

(** [d[k]] on a dictionary of the program. *)
Definition dict_getitem {A} (d : list (string * A)) (k : string) : result A :=
  match dict_get d k with
  | Some v => Ok v
  | None => Raise (KeyError k)
  end.

(** [v[k]] with a string key, on a value received from the service. *)
Definition getitem (v : value) (k : string) : result value :=
  match v with
  | VDict d => dict_getitem d k
  | _ => Raise TypeError
  end.

Fixpoint chars (s : string) : list value :=
  match s with
  | EmptyString => []
  | String a s' => VStr (String a EmptyString) :: chars s'
  end.

(** [iter(v)]: a list yields its items, a dict its keys, a string its
    characters; nothing else is iterable. *)
Definition iter (v : value) : result (list value) :=
  match v with
  | VList l => Ok l
  | VDict d => Ok (map (fun kv => VStr (fst kv)) d)
  | VStr s => Ok (chars s)
  | _ => Raise TypeError
  end.

(** [{str(i): x for i, x in enumerate(xs, start=1)}] *)
Definition enumerate1 {A} (xs : list A) : list (string * A) :=
  imap (fun i x => (pretty (S i), x)) xs.

(** [sep.join(xs)]: every item must be a [str]. *)
Fixpoint join (sep : string) (xs : list value) : result string :=
  match xs with
  | [] => Ok ""
  | x :: xs' =>
      match x with
      | VStr s =>
          match xs' with
          | [] => Ok s
          | _ =>
              match join sep xs' with
              | Ok r => Ok (s +:+ sep +:+ r)
              | other => other
              end
          end
      | _ => Raise TypeError
      end
  end.

(** Characters are code points below 256; [str.isspace] holds of these. *)
Definition isspace (a : ascii) : bool :=
  let n := nat_of_ascii a in
  ((9 <=? n)%nat && (n <=? 13)%nat) || ((28 <=? n)%nat && (n <=? 32)%nat)
  || (n =? 133)%nat || (n =? 160)%nat.

Fixpoint lstrip (s : string) : string :=
  match s with
  | EmptyString => EmptyString
  | String a s' => if isspace a then lstrip s' else s
  end.

Fixpoint rstrip (s : string) : string :=
  match s with
  | EmptyString => EmptyString
  | String a s' =>
      let r := rstrip s' in
      if isspace a && String.eqb r "" then EmptyString else String a r
  end.

(** [s.strip()] *)
Definition strip (s : string) : string := rstrip (lstrip s).

Definition upper_char (a : ascii) : ascii :=
  let n := nat_of_ascii a in
  if (97 <=? n)%nat && (n <=? 122)%nat then ascii_of_nat (n - 32)%nat else a.

Definition lower_char (a : ascii) : ascii :=
  let n := nat_of_ascii a in
  if (65 <=? n)%nat && (n <=? 90)%nat then ascii_of_nat (n + 32)%nat else a.

Fixpoint map_string (f : ascii -> ascii) (s : string) : string :=
  match s with
  | EmptyString => EmptyString
  | String a s' => String (f a) (map_string f s')
  end.

(** [s.upper()] and [s.lower()], on the letters a-z and A-Z. *)
Definition upper : string -> string := map_string upper_char.
Definition lower : string -> string := map_string lower_char.

(** [x in xs] for a list of strings. *)
Definition str_in (x : string) (xs : list string) : bool :=
  existsb (String.eqb x) xs.

End Py.
Export Py.

(** The line feed, written [\n] in the prompts of the source. *)
Definition LF : string := String (ascii_of_nat 10) EmptyString.

(** ** constants.py *)

Definition TRELLO_API_BASE_URL : string := "https://api.trello.com/1".
Definition VALID_COLORS : list string :=
  ["yellow"; "purple"; "blue"; "red"; "green"; "orange"; "black"; "sky";
   "pink"; "lime"; "null"].
Definition MIN_CARD_TITLE_LENGTH : nat := 3.

(** ** The world: terminal, network and the events of a run *)

Inductive http_method : Type := GET | POST.

(** The endpoints of [api.py], with the argument of each f-string kept as
    the value it formats. *)
Inductive endpoint : Type :=
| members_me_boards                       (* 'members/me/boards' *)
| boards_lists (board_id : value)         (* f'boards/{board_id}/lists' *)
| boards_labels (board_id : value)        (* f'boards/{board_id}/labels' *)
| labels                                  (* 'labels' *)
| cards                                   (* 'cards' *)
| cards_actions_comments (card_id : value). (* f'cards/{card_id}/actions/comments' *)

(** A request: [requests.get(url, params=...)] or
    [requests.post(url, data=...)], the url being
    [f"{TRELLO_API_BASE_URL}/{endpoint}"]. *)
Record request : Type := Request {
  req_method : http_method;
  req_base : string;
  req_endpoint : endpoint;
  req_fields : gmap string value
}.

(** A response, as far as the client looks at it: the status code, and the
    body parsed as JSON when it parses. *)
Record response : Type := Response {
  status_code : Z;
  json_body : option value
}.

(** What [console.print] and [print] show; one constructor per statement
    of the source, with the formatted values as arguments. *)
Inductive message : Type :=
| MsgCredentialsError                      (* api.py:18 *)
| MsgNewline                               (* "\n" *)
| MsgNoBoards                              (* cli.py:31 *)
| MsgBoardPanel (rows : list (string * value))   (* cli.py:34 *)
| MsgSelectedBoard (name : value)          (* cli.py:41 *)
| MsgNoColumns                             (* cli.py:56 *)
| MsgListPanel (rows : list (string * value))    (* cli.py:59 *)
| MsgSelectedColumn (name : value)         (* cli.py:66 *)
| MsgAddCardDetails                        (* cli.py:76 *)
| MsgTitleTooShort (min_length : nat)      (* cli.py:79 *)
| MsgLabelPanel (rows : list (string * value * value)) (* cli.py:101 *)
| MsgLabelCount (n : nat)                  (* cli.py:119 *)
| MsgInvalidSelection (sel : string)       (* cli.py:121 *)
| MsgLabelNameEmpty                        (* cli.py:149 *)
| MsgNewLabelCreated (name : string)       (* cli.py:157 *)
| MsgNoLabelsSelected                      (* cli.py:181 *)
| MsgLabelsSelected (n : nat)              (* cli.py:183 *)
| MsgCommentAdded                          (* cli.py:191 *)
| MsgCardAdded (title : string)            (* cli.py:193 *)
| MsgHttpError                             (* cli.py:199 *)
| MsgErrorDetails (e : exn)                (* cli.py:200 *)
| MsgErrorOccurred (e : exn)               (* cli.py:204 *)
| MsgInvalidResponse.                      (* rich: the answer is refused *)

Inductive event : Type :=
| EvPrint (m : message)
| EvPrompt (text : string)
| EvInput (line : string)
| EvHttp (req : request).

(** The lines still to be typed and the replies still to come; [None] in
    the network script is a request that gets no response. *)
Record World : Type := mkWorld {
  stdin : list string;
  network : list (option response)
}.

(** ** The monad of actions *)

Definition M (A : Type) : Type := World -> result A * World * list event.

Definition ret {A} (a : A) : M A := fun w => (Ok a, w, []).

Definition bind {A B} (m : M A) (f : A -> M B) : M B :=
  fun w =>
    match m w with
    | (Ok a, w1, t1) =>
        match f a w1 with
        | (r, w2, t2) => (r, w2, t1 ++ t2)
        end
    | (Raise e, w1, t1) => (Raise e, w1, t1)
    | (Diverge, w1, t1) => (Diverge, w1, t1)
    end.

Declare Scope py_scope.
Delimit Scope py_scope with py.
Notation "x <- c1 ;; c2" := (bind c1 (fun x => c2))
  (at level 100, c1 at next level, right associativity) : py_scope.
Notation "c1 ;; c2" := (bind c1 (fun _ => c2))
  (at level 100, right associativity) : py_scope.
Open Scope py_scope.

(** A pure computation that may raise. *)
Definition lift {A} (r : result A) : M A := fun w => (r, w, []).

Definition emit (e : event) : M unit := fun w => (Ok tt, w, [e]).

(** [console.print(...)] *)
Definition print (m : message) : M unit := emit (EvPrint m).

(** [try: m  except ...: h]: the handler takes the exceptions its clauses
    match; any other goes on. *)
Definition try_except {A} (m : M A) (h : exn -> option (M A)) : M A :=
  fun w =>
    match m w with
    | (Raise e, w1, t1) =>
        match h e with
        | Some k =>
            match k w1 with
            | (r, w2, t2) => (r, w2, t1 ++ t2)
            end
        | None => (Raise e, w1, t1)
        end
    | other => other
    end.

(** Loops.  The body says whether the loop goes on with a new state or
    leaves with a result. *)
Inductive ctl (S R : Type) : Type :=
| Continue (s : S)
| Break (r : R).
Arguments Continue {S R} s.
Arguments Break {S R} r.

Fixpoint while {S R} (fuel : nat) (body : S -> M (ctl S R)) (s : S) : M R :=
  match fuel with
  | O => lift Diverge
  | Datatypes.S n =>
      c <- body s ;;
      match c with
      | Continue s' => while n body s'
      | Break r => ret r
      end
  end.

(** Every loop of the workflow reads a line before it comes round again, so
    one turn more than there are lines left is enough ([add_card_returns]
    and the lemmas before it show that the bound is never reached). *)
Definition loop {S R} (body : S -> M (ctl S R)) (s : S) : M R :=
  fun w => while (Datatypes.S (length (stdin w))) body s w.

(** Projections of a run. *)
Definition res {A} (o : result A * World * list event) : result A := o.1.1.
Definition after {A} (o : result A * World * list event) : World := o.1.2.
Definition trace {A} (o : result A * World * list event) : list event := o.2.

(** ** The libraries the program calls *)

(** [rich.prompt].  A prompt shows its text and reads a line.  An empty
    line returns the default when there is one.  Otherwise the line is
    stripped; with [choices], an answer outside them is refused with a
    message and the prompt is shown again.  Reading at the end of the
    input raises [EOFError]. *)
Module Rich.

Fixpoint ask_lines (text : string) (choices : option (list string))
    (default : option string) (lines : list string)
  : result string * list string * list event :=
  match lines with
  | [] => (Raise EOFError, [], [EvPrompt text])
  | line :: rest =>
      match (if String.eqb line "" then default else None) with
      | Some d => (Ok d, rest, [EvPrompt text; EvInput line])
      | None =>
          let v := strip line in
          if match choices with Some cs => str_in v cs | None => true end
          then (Ok v, rest, [EvPrompt text; EvInput line])
          else
            match ask_lines text choices default rest with
            | (r, rest', t) =>
                (r, rest',
                 EvPrompt text :: EvInput line :: EvPrint MsgInvalidResponse :: t)
            end
      end
  end.

(** [Prompt.ask(text, choices=..., default=...)] *)
Definition Prompt_ask (text : string) (choices : option (list string))
    (default : option string) : M string :=
  fun w =>
    match ask_lines text choices default (stdin w) with
    | (r, rest, t) => (r, mkWorld rest (network w), t)
    end.

(** [Confirm.ask(text, default=...)]: the answer is stripped and put in
    lower case, and must be y or n. *)
Fixpoint confirm_lines (text : string) (default : option bool)
    (lines : list string) : result bool * list string * list event :=
  match lines with
  | [] => (Raise EOFError, [], [EvPrompt text])
  | line :: rest =>
      match (if String.eqb line "" then default else None) with
      | Some d => (Ok d, rest, [EvPrompt text; EvInput line])
      | None =>
          let v := lower (strip line) in
          if str_in v ["y"; "n"]
          then (Ok (String.eqb v "y"), rest, [EvPrompt text; EvInput line])
          else
            match confirm_lines text default rest with
            | (r, rest', t) =>
                (r, rest',
                 EvPrompt text :: EvInput line :: EvPrint MsgInvalidResponse :: t)
            end
      end
  end.

Definition Confirm_ask (text : string) (default : option bool) : M bool :=
  fun w =>
    match confirm_lines text default (stdin w) with
    | (r, rest, t) => (r, mkWorld rest (network w), t)
    end.

End Rich.
Export Rich.

(** [requests].  A request takes the next reply of the network; when there
    is none the connection fails. *)
Module Requests.

Definition send (req : request) : M response :=
  fun w =>
    match network w with
    | Some r :: rest => (Ok r, mkWorld (stdin w) rest, [EvHttp req])
    | None :: rest => (Raise ConnectionError, mkWorld (stdin w) rest, [EvHttp req])
    | [] => (Raise ConnectionError, w, [EvHttp req])
    end.

(** [response.raise_for_status()]: raises [HTTPError] for a client error
    (4xx) or a server error (5xx), and for no other status. *)
Definition raise_for_status (r : response) : result unit :=
  if (400 <=? status_code r)%Z && (status_code r <? 600)%Z
  then Raise (HTTPError (status_code r))
  else Ok tt.

(** [response.json()] *)
Definition json (r : response) : result value :=
  match json_body r with
  | Some v => Ok v
  | None => Raise JSONDecodeError
  end.

End Requests.

(** ** src/api.py *)

(** [os.environ] after [load_dotenv()]: the variables of the [.env] file
    are added, those already set are kept. *)
Definition load_dotenv (dotenv environ : gmap string string)
  : gmap string string :=
  environ ∪ dotenv.

(** [not os.getenv(name)] *)
Definition unset (v : option string) : bool :=
  match v with
  | None => true
  | Some s => String.eqb s ""
  end.

(** The module body of [api.py], lines 12 to 19: the two credentials, or
    the exit. *)
Definition api_module (dotenv environ : gmap string string)
  : M (string * string) :=
  let env := load_dotenv dotenv environ in
  let API_KEY := env !! "TRELLO_API_KEY" in
  let TOKEN := env !! "TRELLO_TOKEN" in
  if unset API_KEY || unset TOKEN then
    print MsgCredentialsError ;;
    lift (Raise (SystemExit 1))
  else ret (default "" API_KEY, default "" TOKEN).

Section Api.

Variables API_KEY TOKEN : string.

Definition credentials : gmap string value :=
  {[ "key" := VStr API_KEY; "token" := VStr TOKEN ]}.

(** [default.update(extra)] guarded by [if extra:] *)
Definition with_fields (fields : option (gmap string value))
  : gmap string value :=
  match fields with
  | Some extra =>
      if decide (extra = ∅) then credentials else extra ∪ credentials
  | None => credentials
  end.

Definition trello_get (endpoint : endpoint)
    (params : option (gmap string value)) : M value :=
  let default_params := with_fields params in
  response <- Requests.send
                (Request GET TRELLO_API_BASE_URL endpoint default_params) ;;
  lift (Requests.raise_for_status response) ;;
  lift (Requests.json response).

Definition trello_post (endpoint : endpoint)
    (data : option (gmap string value)) : M value :=
  let default_data := with_fields data in
  response <- Requests.send
                (Request POST TRELLO_API_BASE_URL endpoint default_data) ;;
  lift (Requests.raise_for_status response) ;;
  lift (Requests.json response).

Definition get_boards : M value :=
  trello_get members_me_boards (Some {[ "fields" := VStr "name,id" ]}).

Definition get_lists (board_id : value) : M value :=
  trello_get (boards_lists board_id) (Some {[ "fields" := VStr "name,id" ]}).

Definition get_labels (board_id : value) : M value :=
  trello_get (boards_labels board_id)
    (Some {[ "fields" := VStr "name,color,id" ]}).

Definition create_label_data (board_id : value) (name : string)
    (color : value) : gmap string value :=
  {[ "name" := VStr name; "color" := color; "idBoard" := board_id ]}.

Definition create_label (board_id : value) (name : string) (color : value)
  : M value :=
  let data := create_label_data board_id name color in
  trello_post labels (Some data).

Definition create_card_data (list_id : value) (name desc label_ids : string)
  : gmap string value :=
  let data : gmap string value :=
    {[ "idList" := list_id; "name" := VStr name; "desc" := VStr desc ]} in
  if truthy (VStr label_ids) then <[ "idLabels" := VStr label_ids ]> data
  else data.

Definition create_card (list_id : value) (name desc label_ids : string)
  : M value :=
  let data := create_card_data list_id name desc label_ids in
  trello_post cards (Some data).

Definition add_comment (card_id : value) (text : string) : M value :=
  let data : gmap string value := {[ "text" := VStr text ]} in
  trello_post (cards_actions_comments card_id) (Some data).

(** The operations of the client, to speak of all of them at once. *)
Inductive operation : Type :=
| OpGetBoards
| OpGetLists (board_id : value)
| OpGetLabels (board_id : value)
| OpCreateLabel (board_id : value) (name : string) (color : value)
| OpCreateCard (list_id : value) (name desc label_ids : string)
| OpAddComment (card_id : value) (text : string).

Definition perform (op : operation) : M value :=
  match op with
  | OpGetBoards => get_boards
  | OpGetLists b => get_lists b
  | OpGetLabels b => get_labels b
  | OpCreateLabel b n c => create_label b n c
  | OpCreateCard l n d ids => create_card l n d ids
  | OpAddComment c t => add_comment c t
  end.

End Api.

(** ** src/cli.py *)

Section Cli.

Variables API_KEY TOKEN : string.

(** [[f"{idx}. {item['name']}" for idx, item in choices.items()]] *)
Fixpoint name_rows (choices : list (string * value))
  : result (list (string * value)) :=
  match choices with
  | [] => Ok []
  | (idx, item) :: choices' =>
      match getitem item "name" with
      | Ok name =>
          match name_rows choices' with
          | Ok rows => Ok ((idx, name) :: rows)
          | other => other
          end
      | Raise e => Raise e
      | Diverge => Diverge
      end
  end.

Definition select_board : M value :=
  boards <- get_boards API_KEY TOKEN ;;
  if negb (truthy boards) then
    print MsgNoBoards ;;
    ret VNone
  else
    items <- lift (iter boards) ;;
    let board_choices := enumerate1 items in
    rows <- lift (name_rows board_choices) ;;
    print (MsgBoardPanel rows) ;;
    board_selection <- Prompt_ask (LF +:+ "Select a board") (Some (keys board_choices)) None ;;
    selected_board <- lift (dict_getitem board_choices board_selection) ;;
    name <- lift (getitem selected_board "name") ;;
    print (MsgSelectedBoard name) ;;
    lift (getitem selected_board "id").

Definition select_list (board_id : value) : M value :=
  lists <- get_lists API_KEY TOKEN board_id ;;
  if negb (truthy lists) then
    print MsgNoColumns ;;
    ret VNone
  else
    items <- lift (iter lists) ;;
    let list_choices := enumerate1 items in
    rows <- lift (name_rows list_choices) ;;
    print (MsgListPanel rows) ;;
    list_selection <- Prompt_ask (LF +:+ "Select a column") (Some (keys list_choices)) None ;;
    selected_list <- lift (dict_getitem list_choices list_selection) ;;
    name <- lift (getitem selected_list "name") ;;
    print (MsgSelectedColumn name) ;;
    lift (getitem selected_list "id").

(** The body of the [while] of [get_card_details]. *)
Definition card_title_turn (card_title : string) : M (ctl string string) :=
  if String.length (strip card_title) <? MIN_CARD_TITLE_LENGTH then
    print (MsgTitleTooShort MIN_CARD_TITLE_LENGTH) ;;
    card_title <- Prompt_ask "Enter card title" None None ;;
    ret (Continue card_title)
  else ret (Break card_title).

Definition get_card_details : M (string * string) :=
  print MsgAddCardDetails ;;
  card_title <- Prompt_ask "Enter card title" None None ;;
  card_title <- loop card_title_turn card_title ;;
  card_desc <- Prompt_ask "Enter card description (optional)" None (Some "") ;;
  ret (card_title, card_desc).

(** The rows of [create_label_options], before the two fixed entries. *)
Fixpoint create_label_options (label_choices : list (string * value))
  : result (list (string * value * value)) :=
  match label_choices with
  | [] => Ok []
  | (idx, label) :: label_choices' =>
      match getitem label "name" with
      | Ok n =>
          let name := if truthy n then n else VStr "No Name" in
          match getitem label "color" with
          | Ok c =>
              let color := if truthy c then c else VStr "No Color" in
              match create_label_options label_choices' with
              | Ok rows => Ok ((idx, name, color) :: rows)
              | other => other
              end
          | Raise e => Raise e
          | Diverge => Diverge
          end
      | Raise e => Raise e
      | Diverge => Diverge
      end
  end.

(** The body of the [while] of [create_new_label]. *)
Definition label_name_turn (label_name : string) : M (ctl string string) :=
  if negb (truthy (VStr (strip label_name))) then
    print MsgLabelNameEmpty ;;
    label_name <- Prompt_ask "Enter new label name" None None ;;
    ret (Continue label_name)
  else ret (Break label_name).

Definition create_new_label (board_id : value) : M value :=
  label_name <- Prompt_ask "Enter new label name" None None ;;
  label_name <- loop label_name_turn label_name ;;
  label_color <- Prompt_ask "Enter label color" (Some VALID_COLORS)
                   (Some "blue") ;;
  new_label <- create_label API_KEY TOKEN board_id label_name
                 (if String.eqb label_color "null" then VNone
                  else VStr label_color) ;;
  print (MsgNewLabelCreated label_name) ;;
  ret new_label.

(** The state of the loop of [select_labels]: the menu and the ids chosen
    so far. *)
Definition label_state : Type := list (string * value) * list value.

Definition select_labels_turn (board_id : value) (st : label_state)
  : M (ctl label_state (list value)) :=
  let '(label_choices, selected_label_ids) := st in
  print MsgNewline ;;
  label_options <- lift (create_label_options label_choices) ;;
  print (MsgLabelPanel label_options) ;;
  label_selection <- Prompt_ask (LF +:+ "Select a label (or 'F' to finish)") None (Some "F") ;;
  if String.eqb (upper label_selection) "F" then
    ret (Break selected_label_ids)
  else if String.eqb label_selection "0" then
    new_label <- create_new_label board_id ;;
    new_id <- lift (getitem new_label "id") ;;
    ret (Continue
           (dict_set label_choices (pretty (length label_choices + 1)) new_label,
            selected_label_ids ++ [new_id]))
  else if dict_mem label_selection label_choices then
    label <- lift (dict_getitem label_choices label_selection) ;;
    label_id <- lift (getitem label "id") ;;
    let selected_label_ids := selected_label_ids ++ [label_id] in
    print (MsgLabelCount (length selected_label_ids)) ;;
    ret (Continue (label_choices, selected_label_ids))
  else
    print (MsgInvalidSelection label_selection) ;;
    ret (Continue (label_choices, selected_label_ids)).

Definition select_labels (board_id : value) : M (list value) :=
  labels <- get_labels API_KEY TOKEN board_id ;;
  items <- lift (iter labels) ;;
  let label_choices := enumerate1 items in
  loop (select_labels_turn board_id) (label_choices, []).

(** [break] when the answer is no, the next turn of [while True] when it
    is yes. *)
Definition again (yes : bool) : ctl unit unit :=
  if yes then Continue tt else Break tt.

(** The [try] block of [add_card]. *)
Definition attempt : M (ctl unit unit) :=
  print MsgNewline ;;
  board_id <- select_board ;;
  if negb (truthy board_id) then
    yes <- Confirm_ask (LF +:+ "No board selected. Do you want to try again?") (Some true) ;;
    ret (again yes)
  else
    list_id <- select_list board_id ;;
    if negb (truthy list_id) then
      yes <- Confirm_ask (LF +:+ "No list selected. Do you want to try again?") (Some true) ;;
      ret (again yes)
    else
      details <- get_card_details ;;
      let '(card_title, card_desc) := details in
      selected_label_ids <- select_labels board_id ;;
      print (match selected_label_ids with
             | [] => MsgNoLabelsSelected
             | _ => MsgLabelsSelected (length selected_label_ids)
             end) ;;
      label_ids <- lift (join "," selected_label_ids) ;;
      card <- create_card API_KEY TOKEN list_id card_title card_desc label_ids ;;
      add_comment_option <- Confirm_ask (LF +:+ "Do you want to add a comment?") (Some false) ;;
      (if add_comment_option then
         comment_text <- Prompt_ask "Enter your comment" None None ;;
         card_id <- lift (getitem card "id") ;;
         add_comment API_KEY TOKEN card_id comment_text ;;
         print MsgCommentAdded
       else ret tt) ;;
      print (MsgCardAdded card_title) ;;
      yes <- Confirm_ask (LF +:+ "Do you want to add another card?") (Some false) ;;
      ret (again yes).

(** The two [except] clauses of [add_card]. *)
Definition handlers (e : exn) : option (M (ctl unit unit)) :=
  if is_HTTPError e then
    Some (print MsgHttpError ;;
          print (MsgErrorDetails e) ;;
          yes <- Confirm_ask (LF +:+ "Do you want to try again?") (Some true) ;;
          ret (again yes))
  else if is_Exception e then
    Some (print (MsgErrorOccurred e) ;;
          yes <- Confirm_ask (LF +:+ "Do you want to try again?") (Some true) ;;
          ret (again yes))
  else None.

(** One turn of the [while True] of [add_card]. *)
Definition iteration : M (ctl unit unit) := try_except attempt handlers.

Definition add_card : M unit := loop (fun _ => iteration) tt.

Definition cli : M unit := add_card.

End Cli.

(** The process: importing [api.py] reads the credentials, then [cli] runs
    with them. *)
Definition main (dotenv environ : gmap string string) : M unit :=
  creds <- api_module dotenv environ ;;
  cli creds.1 creds.2.

(** * The vocabulary of the properties *)

(** ** Loops and the input *)

(** An action is [steady] when it never diverges and never gives lines
    back to the input; it is [reading] when it cannot return without
    having read a line. *)
Definition steady {A} (m : M A) : Prop :=
  forall w, res (m w) <> Diverge
            /\ length (stdin (after (m w))) <= length (stdin w).

Definition reading {A} (m : M A) : Prop :=
  forall w a, res (m w) = Ok a ->
              length (stdin (after (m w))) < length (stdin w).

(** A turn of a loop is [advancing] when it reads a line before it asks
    for another turn. *)
Definition advancing {S R} (m : M (ctl S R)) : Prop :=
  forall w s, res (m w) = Ok (Continue s) ->
              length (stdin (after (m w))) < length (stdin w).

(** The workflow raises nothing but exceptions that derive from
    [Exception]: [raising m] says so of the action [m], [mild r] of the
    result [r] of a pure helper. *)
Definition raising {A} (m : M A) : Prop :=
  forall w e, res (m w) = Raise e -> is_Exception e = true.

Definition mild {A} (r : result A) : Prop :=
  forall e, r = Raise e -> is_Exception e = true.

(** ** Events and values of a run *)

(** [emits P m]: every event of every run of [m] satisfies [P];
    [returns Q m]: every value that [m] returns satisfies [Q]. *)
Definition emits {A} (P : event -> Prop) (m : M A) : Prop :=
  forall w, Forall P (trace (m w)).

Definition returns {A} (Q : A -> Prop) (m : M A) : Prop :=
  forall w a, res (m w) = Ok a -> Q a.

(** A run with events shown before it. *)
Definition prepend {A} (t : list event) (o : result A * World * list event)
  : result A * World * list event :=
  (o.1.1, o.1.2, t ++ o.2).


(** ** What the terminal shows *)

(** What the terminal shows when a title is refused. *)
Definition title_refused (line : string) : list event :=
  [EvPrompt "Enter card title"; EvInput line;
   EvPrint (MsgTitleTooShort MIN_CARD_TITLE_LENGTH)].




(** ** Requests and replies *)

(** A successful reply with the payload [v]. *)
Definition ok (v : value) : option response := Some (Response 200 (Some v)).

Section Sent.

Variables API_KEY TOKEN : string.

(** The request of a [GET] wrapper. *)
Definition get_request (e : endpoint) (fields : string) : request :=
  Request GET TRELLO_API_BASE_URL e
    (with_fields API_KEY TOKEN (Some {[ "fields" := VStr fields ]})).

(** The request that [create_new_label] sends for an accepted name and an
    accepted colour. *)
Definition new_label_request (board_id : value) (name color : string)
  : request :=
  Request POST TRELLO_API_BASE_URL labels
    (with_fields API_KEY TOKEN
       (Some (create_label_data board_id name
                (if String.eqb color "null" then VNone else VStr color)))).

Definition new_label_event (board_id : value) (e : event) : Prop :=
  match e with
  | EvHttp req =>
      exists name color,
        req = new_label_request board_id name color
        /\ strip name <> "" /\ color ∈ VALID_COLORS
  | _ => True
  end.

End Sent.

(** ** Menus *)



(** A menu is numbered when its keys are [1], ..., [n] in order. *)
Definition numbered {A} (d : list (string * A)) : Prop :=
  keys d = map pretty (seq 1 (length d)).

(** ** The steps of the workflow *)

(** The steps of one turn of [add_card] that leave a mark in the events:
    the requests of the client, and what is shown when a board, a column,
    the card details and the labels are settled. *)
Inductive step : Type :=
| StepBoards            (* get_boards is called *)
| StepBoardSelected     (* "Selected Board: ..." *)
| StepLists             (* get_lists is called *)
| StepListSelected      (* "Selected Column: ..." *)
| StepCardDetails       (* the description, last of the details, is asked *)
| StepLabels            (* get_labels is called *)
| StepLabelsSelected    (* the summary shown when select_labels is back *)
| StepCardCreation      (* create_card is called *)
| StepComment.          (* add_comment is called *)

(** The creation of a label during the selection of labels is not a step
    of its own. *)
Definition step_of (e : event) : option step :=
  match e with
  | EvHttp req =>
      match req_endpoint req with
      | members_me_boards => Some StepBoards
      | boards_lists _ => Some StepLists
      | boards_labels _ => Some StepLabels
      | labels => None
      | cards => Some StepCardCreation
      | cards_actions_comments _ => Some StepComment
      end
  | EvPrint (MsgSelectedBoard _) => Some StepBoardSelected
  | EvPrint (MsgSelectedColumn _) => Some StepListSelected
  | EvPrint MsgNoLabelsSelected => Some StepLabelsSelected
  | EvPrint (MsgLabelsSelected _) => Some StepLabelsSelected
  | EvPrompt text =>
      if String.eqb text "Enter card description (optional)"
      then Some StepCardDetails else None
  | _ => None
  end.

Definition steps_of (t : list event) : list step := omap step_of t.
Arguments steps_of : simpl never.

Definition workflow_order : list step :=
  [StepBoards; StepBoardSelected; StepLists; StepListSelected;
   StepCardDetails; StepLabels; StepLabelsSelected; StepCardCreation;
   StepComment].

(** [marks m L Q]: the steps of a run of [m] are the first steps of [L],
    and all of [L] when [m] returns a value that satisfies [Q]. *)
Definition marks {A} (m : M A) (L : list step) (Q : A -> Prop) : Prop :=
  forall w,
    steps_of (trace (m w)) `prefix_of` L
    /\ (forall a, res (m w) = Ok a -> Q a -> steps_of (trace (m w)) = L).

Definition always {A} : A -> Prop := fun _ => True.

Definition never {A} : A -> Prop := fun _ => False.

(** ** A small session *)

Definition demo_board : value :=
  VDict [("id", VStr "b1"); ("name", VStr "Test Board")].

Definition demo_list : value :=
  VDict [("id", VStr "l1"); ("name", VStr "To Do")].

Definition demo_card : value :=
  VDict [("id", VStr "c1"); ("name", VStr "Test Card")].

(** ** Further vocabulary *)


(** A request to the Trello API with the two credentials. *)
Definition credentialed (API_KEY TOKEN : string) (e : event) : Prop :=
  match e with
  | EvHttp req =>
      req_base req = TRELLO_API_BASE_URL
      /\ req_fields req !! "key" = Some (VStr API_KEY)
      /\ req_fields req !! "token" = Some (VStr TOKEN)
  | _ => True
  end.

(** The line that chooses the entry of index [i], counted from 0, in a
    menu numbered from 1. *)
Definition pick (i : nat) : string := pretty (S i).



Definition board_prompt : string := LF +:+ "Select a board".
Definition no_board_prompt : string :=
  LF +:+ "No board selected. Do you want to try again?".
Definition no_list_prompt : string :=
  LF +:+ "No list selected. Do you want to try again?".
Definition comment_prompt : string := LF +:+ "Do you want to add a comment?".
Definition another_prompt : string := LF +:+ "Do you want to add another card?".



Definition demo_labels : list value :=
  [VDict [("id", VStr "g1"); ("name", VStr "Bug"); ("color", VStr "red")];
   VDict [("id", VStr "g2"); ("name", VStr ""); ("color", VNone)]].

(** * Properties *)

(** ** Strings *)

Lemma lstrip_length (s : string) : String.length (lstrip s) <= String.length s.
Proof.
  induction s as [|a s IH]; simpl; [lia|].
  destruct (isspace a); simpl; lia.
Qed.

Lemma rstrip_length (s : string) : String.length (rstrip s) <= String.length s.
Proof.
  induction s as [|a s IH]; simpl; [lia|].
  destruct (isspace a && String.eqb (rstrip s) ""); simpl; lia.
Qed.

Lemma strip_length (s : string) : String.length (strip s) <= String.length s.
Proof.
  unfold strip. etrans; [apply rstrip_length | apply lstrip_length].
Qed.

Lemma lstrip_head (s : string) :
  lstrip s = "" \/ exists a s', lstrip s = String a s' /\ isspace a = false.
Proof.
  induction s as [|a s IH]; simpl; [by left|].
  destruct (isspace a) eqn:E; [done|]. right; eauto.
Qed.

Lemma rstrip_head (a : ascii) (s : string) :
  isspace a = false -> rstrip (String a s) = String a (rstrip s).
Proof. intros E. simpl. by rewrite E. Qed.

Lemma rstrip_idem (s : string) : rstrip (rstrip s) = rstrip s.
Proof.
  induction s as [|a s IH]; simpl; [done|].
  destruct (isspace a && String.eqb (rstrip s) "") eqn:E; [done|].
  simpl. by rewrite IH, E.
Qed.

Lemma strip_idem (s : string) : strip (strip s) = strip s.
Proof.
  unfold strip. destruct (lstrip_head s) as [-> | (a & s' & -> & Ha)]; [done|].
  rewrite (rstrip_head a s' Ha). simpl lstrip. rewrite Ha.
  rewrite <- (rstrip_head a s' Ha). apply rstrip_idem.
Qed.


Example strip_blanks : strip "  Test Card  " = "Test Card".
Proof. reflexivity. Qed.

Example upper_f : upper "f" = "F" /\ lower "Y" = "y".
Proof. by split. Qed.

Lemma str_in_spec (x : string) (xs : list string) :
  str_in x xs = true <-> x ∈ xs.
Proof.
  unfold str_in. rewrite existsb_exists. split.
  - intros (y & Hin & Heq). apply String.eqb_eq in Heq as ->.
    by apply list_elem_of_In.
  - intros Hin. exists x. split; [by apply list_elem_of_In|].
    apply String.eqb_refl.
Qed.

(** ** The laws of the monad that the proofs use *)

Lemma bind_Ok {A B} (m : M A) (f : A -> M B) w a w1 t1 :
  m w = (Ok a, w1, t1) ->
  bind m f w = ((f a w1).1.1, (f a w1).1.2, t1 ++ (f a w1).2).
Proof. unfold bind. intros ->. by destruct (f a w1) as [[??]?]. Qed.

Lemma bind_Raise {A B} (m : M A) (f : A -> M B) w e w1 t1 :
  m w = (Raise e, w1, t1) -> bind m f w = (Raise e, w1, t1).
Proof. unfold bind. by intros ->. Qed.

Lemma bind_Diverge {A B} (m : M A) (f : A -> M B) w w1 t1 :
  m w = (Diverge, w1, t1) -> bind m f w = (Diverge, w1, t1).
Proof. unfold bind. by intros ->. Qed.

Lemma bind_print {B} (msg : message) (f : unit -> M B) w :
  bind (print msg) f w
  = ((f tt w).1.1, (f tt w).1.2, EvPrint msg :: (f tt w).2).
Proof. unfold bind, print, emit. by destruct (f tt w) as [[??]?]. Qed.

Lemma bind_ret {A B} (a : A) (f : A -> M B) w : bind (ret a) f w = f a w.
Proof. unfold bind, ret. by destruct (f a w) as [[??]?]. Qed.

Lemma bind_lift_Ok {A B} (a : A) (f : A -> M B) w :
  bind (lift (Ok a)) f w = f a w.
Proof. unfold bind, lift. by destruct (f a w) as [[??]?]. Qed.

(** ** No run passes the bound of a loop *)

Lemma steady_ret {A} (a : A) : steady (ret a).
Proof. intros w. by cbn. Qed.

Lemma steady_lift {A} (r : result A) : r <> Diverge -> steady (lift r).
Proof. intros H w. by cbn. Qed.

Lemma steady_print (msg : message) : steady (print msg).
Proof. intros w. by cbn. Qed.

Lemma steady_bind {A B} (m : M A) (f : A -> M B) :
  steady m -> (forall a, steady (f a)) -> steady (bind m f).
Proof.
  intros Hm Hf w. destruct (Hm w) as [Hm1 Hm2]. unfold bind, res, after in *.
  destruct (m w) as [[[a|e|] w1] t1]; cbn in *; [|by split|by destruct Hm1].
  specialize (Hf a w1). unfold res, after in Hf.
  destruct (f a w1) as [[r w2] t2]; cbn in *.
  split; [tauto|lia].
Qed.

Lemma reading_steady_bind {A B} (m : M A) (f : A -> M B) :
  reading m -> (forall a, steady (f a)) -> reading (bind m f).
Proof.
  intros Hm Hf w b. specialize (Hm w). unfold bind, res, after in *.
  destruct (m w) as [[[a|e|] w1] t1]; cbn in *; [|done..].
  specialize (Hf a w1). specialize (Hm a eq_refl).
  destruct (f a w1) as [[r w2] t2]; cbn in *. intros _. lia.
Qed.

Lemma steady_reading_bind {A B} (m : M A) (f : A -> M B) :
  steady m -> (forall a, reading (f a)) -> reading (bind m f).
Proof.
  intros Hm Hf w b. specialize (Hm w). unfold bind, res, after in *.
  destruct (m w) as [[[a|e|] w1] t1]; cbn in *; [|done..].
  specialize (Hf a w1 b). destruct (f a w1) as [[r w2] t2]; cbn in *.
  intros E. specialize (Hf E). lia.
Qed.

Lemma reading_advancing {S R} (m : M (ctl S R)) : reading m -> advancing m.
Proof. intros H w s. apply H. Qed.

Lemma advancing_Break {S R} (r : R) : advancing (ret (Break r : ctl S R)).
Proof. intros w s. by cbn. Qed.

Lemma ask_lines_rest text choices default lines :
  let o := ask_lines text choices default lines in
  o.1.1 <> Diverge
  /\ length o.1.2 <= length lines
  /\ (forall a, o.1.1 = Ok a -> length o.1.2 < length lines).
Proof.
  induction lines as [|line rest IH]; cbn; [by repeat split|].
  destruct (if String.eqb line "" then default else None).
  { cbn. repeat split; [done|lia|intros; lia]. }
  destruct (match choices with Some cs => str_in (strip line) cs | None => true end).
  { cbn. repeat split; [done|lia|intros; lia]. }
  destruct (ask_lines text choices default rest) as [[r rest'] t]; cbn in *.
  destruct IH as (? & ? & IH). repeat split; [done|lia|].
  intros a E. specialize (IH a E). lia.
Qed.

Lemma confirm_lines_rest text default lines :
  let o := confirm_lines text default lines in
  o.1.1 <> Diverge
  /\ length o.1.2 <= length lines
  /\ (forall a, o.1.1 = Ok a -> length o.1.2 < length lines).
Proof.
  induction lines as [|line rest IH]; cbn -[str_in]; [by repeat split|].
  destruct (if String.eqb line "" then default else None).
  { cbn. repeat split; [done|lia|intros; lia]. }
  destruct (str_in (lower (strip line)) ["y"; "n"]).
  { cbn. repeat split; [done|lia|intros; lia]. }
  destruct (confirm_lines text default rest) as [[r rest'] t]; cbn in *.
  destruct IH as (? & ? & IH). repeat split; [done|lia|].
  intros a E. specialize (IH a E). lia.
Qed.

Lemma steady_Prompt_ask text choices default :
  steady (Prompt_ask text choices default).
Proof.
  intros w. unfold Prompt_ask, res, after.
  pose proof (ask_lines_rest text choices default (stdin w)) as H.
  destruct (ask_lines text choices default (stdin w)) as [[r rest] t].
  cbn in *. tauto.
Qed.

Lemma reading_Prompt_ask text choices default :
  reading (Prompt_ask text choices default).
Proof.
  intros w a. unfold Prompt_ask, res, after.
  pose proof (ask_lines_rest text choices default (stdin w)) as H.
  destruct (ask_lines text choices default (stdin w)) as [[r rest] t].
  cbn in *. apply H.
Qed.

Lemma steady_Confirm_ask text default : steady (Confirm_ask text default).
Proof.
  intros w. unfold Confirm_ask, res, after.
  pose proof (confirm_lines_rest text default (stdin w)) as H.
  destruct (confirm_lines text default (stdin w)) as [[r rest] t].
  cbn in *. tauto.
Qed.

Lemma reading_Confirm_ask text default : reading (Confirm_ask text default).
Proof.
  intros w a. unfold Confirm_ask, res, after.
  pose proof (confirm_lines_rest text default (stdin w)) as H.
  destruct (confirm_lines text default (stdin w)) as [[r rest] t].
  cbn in *. apply H.
Qed.

Lemma steady_send (req : request) : steady (Requests.send req).
Proof.
  intros w. unfold Requests.send, res, after.
  destruct (network w) as [|[r|] rest]; by cbn.
Qed.

Lemma steady_while {S R} (body : S -> M (ctl S R)) :
  (forall s, steady (body s)) -> (forall s, advancing (body s)) ->
  forall fuel s w, length (stdin w) < fuel ->
    res (while fuel body s w) <> Diverge
    /\ length (stdin (after (while fuel body s w))) <= length (stdin w).
Proof.
  intros Hs Ha fuel. induction fuel as [|fuel IH]; intros s w Hlt; [lia|].
  cbn [while]. destruct (Hs s w) as [Hs1 Hs2]. specialize (Ha s w).
  unfold bind, res, after in *.
  destruct (body s w) as [[[[s'|r]|e|] w1] t1]; cbn in *;
    [|by split|by split|by destruct Hs1].
  specialize (Ha s' eq_refl).
  destruct (IH s' w1) as [H1 H2]; [lia|].
  destruct (while fuel body s' w1) as [[r2 w2] t2]; cbn in *.
  split; [done|lia].
Qed.

Lemma steady_loop {S R} (body : S -> M (ctl S R)) (s : S) :
  (forall s, steady (body s)) -> (forall s, advancing (body s)) ->
  steady (loop body s).
Proof. intros Hs Ha w. unfold loop. apply steady_while; [done..|lia]. Qed.


(** The pure helpers return or raise. *)
Lemma dict_getitem_returns {A} (d : list (string * A)) k :
  dict_getitem d k <> Diverge.
Proof. unfold dict_getitem. by destruct (dict_get d k). Qed.

Lemma getitem_returns v k : getitem v k <> Diverge.
Proof. destruct v; try done. apply dict_getitem_returns. Qed.

Lemma iter_returns v : iter v <> Diverge.
Proof. by destruct v. Qed.

Lemma join_returns sep xs : join sep xs <> Diverge.
Proof.
  induction xs as [|x xs IH]; [done|]. simpl.
  destruct x; try done. destruct xs; [done|].
  by destruct (join sep (_ :: _)).
Qed.

Lemma name_rows_returns choices : name_rows choices <> Diverge.
Proof.
  induction choices as [|[idx item] choices IH]; [done|]. simpl.
  pose proof (getitem_returns item "name").
  destruct (getitem item "name"); [|done..].
  by destruct (name_rows choices).
Qed.

Lemma create_label_options_returns choices :
  create_label_options choices <> Diverge.
Proof.
  induction choices as [|[idx label] choices IH]; [done|]. simpl.
  pose proof (getitem_returns label "name").
  destruct (getitem label "name"); [|done..].
  pose proof (getitem_returns label "color").
  destruct (getitem label "color"); [|done..].
  by destruct (create_label_options choices).
Qed.

Lemma raise_for_status_returns r : Requests.raise_for_status r <> Diverge.
Proof. unfold Requests.raise_for_status. by case_match. Qed.

Lemma json_returns r : Requests.json r <> Diverge.
Proof. unfold Requests.json. by case_match. Qed.

Create HintDb steady discriminated.
#[local] Hint Resolve steady_ret steady_print steady_Prompt_ask
  steady_Confirm_ask steady_send dict_getitem_returns getitem_returns
  iter_returns join_returns name_rows_returns create_label_options_returns
  raise_for_status_returns json_returns : steady.

(** Steadiness follows the shape of the code. *)
Ltac steady_step :=
  match goal with
  | |- steady (bind _ _) => apply steady_bind; [|intros]
  | |- steady (lift _) => apply steady_lift
  | |- steady (if ?c then _ else _) => destruct c
  | |- steady (match ?x with _ => _ end) => destruct x
  | |- steady (let '(_, _) := ?x in _) => destruct x
  | |- _ => solve [eauto with steady]
  end.
Ltac steady := repeat steady_step.

(** A reading action: either its first part reads and the rest is steady,
    or the first part is steady and the rest reads. *)
Ltac reading :=
  match goal with
  | |- reading (Prompt_ask _ _ _) => apply reading_Prompt_ask
  | |- reading (Confirm_ask _ _) => apply reading_Confirm_ask
  | |- reading (if ?c then _ else _) => destruct c; reading
  | |- reading (let '(_, _) := ?x in _) => destruct x; reading
  | |- reading (bind _ _) =>
      first [ apply reading_steady_bind; [reading | intros; steady; fail]
            | apply steady_reading_bind; [steady; fail | intros; reading] ]
  end.

Section Steady.

Variables API_KEY TOKEN : string.

Lemma steady_trello_get e p : steady (trello_get API_KEY TOKEN e p).
Proof. unfold trello_get. steady. Qed.

Lemma steady_trello_post e p : steady (trello_post API_KEY TOKEN e p).
Proof. unfold trello_post. steady. Qed.

Lemma steady_perform op : steady (perform API_KEY TOKEN op).
Proof.
  destruct op; cbn; unfold get_boards, get_lists, get_labels, create_label,
    create_card, add_comment;
    auto using steady_trello_get, steady_trello_post.
Qed.

Hint Resolve steady_trello_get steady_trello_post : steady.

Lemma steady_select_board : steady (select_board API_KEY TOKEN).
Proof. unfold select_board, get_boards. steady. Qed.

Lemma steady_select_list b : steady (select_list API_KEY TOKEN b).
Proof. unfold select_list, get_lists. steady. Qed.

Lemma steady_card_title_turn t : steady (card_title_turn t).
Proof. unfold card_title_turn. steady. Qed.

Lemma advancing_card_title_turn t : advancing (card_title_turn t).
Proof.
  unfold card_title_turn. case_match; [|apply advancing_Break].
  apply reading_advancing. reading.
Qed.

Lemma steady_get_card_details : steady get_card_details.
Proof.
  unfold get_card_details. steady.
  apply steady_loop;
    auto using steady_card_title_turn, advancing_card_title_turn.
Qed.

Lemma reading_get_card_details : reading get_card_details.
Proof.
  unfold get_card_details.
  apply steady_reading_bind; [steady|intros _].
  apply reading_steady_bind; [reading|intros]. steady.
  apply steady_loop;
    auto using steady_card_title_turn, advancing_card_title_turn.
Qed.

Lemma steady_label_name_turn n : steady (label_name_turn n).
Proof. unfold label_name_turn. steady. Qed.

Lemma advancing_label_name_turn n : advancing (label_name_turn n).
Proof.
  unfold label_name_turn. case_match; [|apply advancing_Break].
  apply reading_advancing. reading.
Qed.

Lemma steady_create_new_label b : steady (create_new_label API_KEY TOKEN b).
Proof.
  unfold create_new_label, create_label. steady.
  apply steady_loop;
    auto using steady_label_name_turn, advancing_label_name_turn.
Qed.

Hint Resolve steady_create_new_label steady_select_board steady_select_list
  steady_get_card_details : steady.

Lemma steady_select_labels_turn b st :
  steady (select_labels_turn API_KEY TOKEN b st).
Proof. unfold select_labels_turn. steady. Qed.

Lemma reading_select_labels_turn b st :
  reading (select_labels_turn API_KEY TOKEN b st).
Proof. unfold select_labels_turn. destruct st. reading. Qed.

Lemma steady_select_labels b : steady (select_labels API_KEY TOKEN b).
Proof.
  unfold select_labels, get_labels. steady.
  apply steady_loop; intros;
    auto using steady_select_labels_turn, reading_advancing,
      reading_select_labels_turn.
Qed.

Hint Resolve steady_select_labels : steady.








End Steady.

(** ** The API client *)

Section ApiProperties.

Variables API_KEY TOKEN : string.

(** What a wrapper does with the reply it gets. *)
Lemma trello_get_reply e p w r rest :
  network w = Some r :: rest ->
  trello_get API_KEY TOKEN e p w
  = (match Requests.raise_for_status r with
     | Ok _ => Requests.json r
     | Raise x => Raise x
     | Diverge => Diverge
     end,
     mkWorld (stdin w) rest,
     [EvHttp (Request GET TRELLO_API_BASE_URL e (with_fields API_KEY TOKEN p))]).
Proof.
  intros Hn. unfold trello_get, bind, Requests.send, lift. rewrite Hn.
  destruct (Requests.raise_for_status r); [|done..].
  by destruct (Requests.json r).
Qed.

Lemma trello_post_reply e p w r rest :
  network w = Some r :: rest ->
  trello_post API_KEY TOKEN e p w
  = (match Requests.raise_for_status r with
     | Ok _ => Requests.json r
     | Raise x => Raise x
     | Diverge => Diverge
     end,
     mkWorld (stdin w) rest,
     [EvHttp (Request POST TRELLO_API_BASE_URL e (with_fields API_KEY TOKEN p))]).
Proof.
  intros Hn. unfold trello_post, bind, Requests.send, lift. rewrite Hn.
  destruct (Requests.raise_for_status r); [|done..].
  by destruct (Requests.json r).
Qed.

Lemma perform_reply op w r rest :
  network w = Some r :: rest ->
  res (perform API_KEY TOKEN op w)
  = match Requests.raise_for_status r with
    | Ok _ => Requests.json r
    | Raise x => Raise x
    | Diverge => Diverge
    end.
Proof.
  intros Hn. destruct op; cbn [perform];
    unfold get_boards, get_lists, get_labels, create_label, create_card,
      add_comment;
    by rewrite ?(trello_get_reply _ _ _ _ _ Hn), ?(trello_post_reply _ _ _ _ _ Hn).
Qed.

(** C1, as amended.  For every operation of the client: a reply with a
    client-error or server-error status (4xx, 5xx) makes the operation
    raise [HTTPError]; a reply with any other status, a successful one (2xx)
    in particular, whose body parses as JSON makes it return the parsed
    payload unchanged. *)
Theorem perform_returns_payload_or_raises op w r rest :
  network w = Some r :: rest ->
  ((400 <= status_code r < 600)%Z ->
     res (perform API_KEY TOKEN op w) = Raise (HTTPError (status_code r)))
  /\ (forall j, ~ (400 <= status_code r < 600)%Z -> json_body r = Some j ->
        res (perform API_KEY TOKEN op w) = Ok j)
  /\ (forall j, (200 <= status_code r < 300)%Z -> json_body r = Some j ->
        res (perform API_KEY TOKEN op w) = Ok j).
Proof.
  intros Hn. rewrite (perform_reply op w r rest Hn).
  unfold Requests.raise_for_status, Requests.json.
  repeat split.
  - intros [H1 H2]. apply Z.leb_le in H1. apply Z.ltb_lt in H2.
    by rewrite H1, H2.
  - intros j Hs ->.
    destruct ((400 <=? status_code r)%Z && (status_code r <? 600)%Z) eqn:E;
      [|done].
    apply andb_true_iff in E as [H1 H2].
    apply Z.leb_le in H1. apply Z.ltb_lt in H2. lia.
  - intros j Hs ->.
    destruct ((400 <=? status_code r)%Z && (status_code r <? 600)%Z) eqn:E;
      [|done].
    apply andb_true_iff in E as [H1 H2].
    apply Z.leb_le in H1. apply Z.ltb_lt in H2. lia.
Qed.

(** C9.  [create_card] sends one request, to [cards], and its body has the
    field [idLabels] exactly when [label_ids] is not the empty string; the
    field then holds [label_ids], and is left out otherwise. *)
Theorem create_card_idLabels list_id name desc label_ids w :
  exists fields,
    trace (create_card API_KEY TOKEN list_id name desc label_ids w)
    = [EvHttp (Request POST TRELLO_API_BASE_URL cards fields)]
    /\ (is_Some (fields !! "idLabels") <-> label_ids <> "")
    /\ fields !! "idLabels"
       = (if decide (label_ids = "") then None else Some (VStr label_ids)).
Proof.
  exists (with_fields API_KEY TOKEN
            (Some (create_card_data list_id name desc label_ids))).
  split.
  { unfold create_card, trello_post, bind, Requests.send, lift, trace.
    destruct (network w) as [|[r|] rest]; [done| |done].
    destruct (Requests.raise_for_status r); [|done..].
    by destruct (Requests.json r). }
  assert (with_fields API_KEY TOKEN
            (Some (create_card_data list_id name desc label_ids)) !! "idLabels"
          = if decide (label_ids = "") then None else Some (VStr label_ids))
    as ->.
  { unfold with_fields, create_card_data, credentials, truthy.
    destruct (decide (label_ids = "")) as [->|Hne].
    - cbn [String.eqb negb]. case_decide as E.
      + by apply (f_equal (fun m : gmap string value => m !! "idList")) in E.
      + apply lookup_union_None. by split.
    - replace (String.eqb label_ids "") with false
        by (symmetry; by apply String.eqb_neq).
      cbn [negb]. case_decide as E.
      + by apply (f_equal (fun m : gmap string value => m !! "idList")) in E.
      + apply lookup_union_Some_l. by apply lookup_insert_eq. }
  split; [|done].
  case_decide; split; intros Hx; try done; by destruct Hx.
Qed.

End ApiProperties.

(** A reply with status 300 and a JSON body is returned, not raised. *)
Lemma get_boards_returns_on_status_300 :
  ~ (200 <= 300 < 300)%Z
  /\ res (perform "key" "token" OpGetBoards
            (mkWorld [] [Some (Response 300 (Some (VList [])))]))
     = Ok (VList []).
Proof. split; [lia|reflexivity]. Qed.

Lemma perform_returns_payload_or_raises_witness :
  network (mkWorld [] [Some (Response 404 None)]) = [Some (Response 404 None)]
  /\ res (perform "key" "token" (OpGetLists (VStr "b1"))
            (mkWorld [] [Some (Response 404 None)]))
     = Raise (HTTPError 404).
Proof.
  split; [reflexivity|].
  apply (perform_returns_payload_or_raises "key" "token" (OpGetLists (VStr "b1"))
           (mkWorld [] [Some (Response 404 None)]) (Response 404 None) []);
    [reflexivity | cbn; lia].
Defined.

(** ** tests/test_api.py *)

(** The four tests of the repository, the mocked response being a reply of
    the network script. *)
Example test_get_boards :
  let boards := VList [VDict [("id", VStr "1"); ("name", VStr "Test Board")]] in
  res (get_boards "key" "token" (mkWorld [] [ok boards])) = Ok boards.
Proof. reflexivity. Qed.

Example test_get_lists :
  let lists := VList [VDict [("id", VStr "1"); ("name", VStr "To Do")]] in
  res (get_lists "key" "token" (VStr "board_id") (mkWorld [] [ok lists]))
  = Ok lists.
Proof. reflexivity. Qed.

Example test_create_card :
  let card := VDict [("id", VStr "1"); ("name", VStr "Test Card")] in
  let run :=
    create_card "key" "token" (VStr "list_id") "Test Card" "Description"
      "label1,label2" (mkWorld [] [ok card]) in
  res run = Ok card
  /\ trace run
     = [EvHttp (Request POST TRELLO_API_BASE_URL cards
                  {[ "key" := VStr "key"; "token" := VStr "token";
                     "idList" := VStr "list_id"; "name" := VStr "Test Card";
                     "desc" := VStr "Description";
                     "idLabels" := VStr "label1,label2" ]})].
Proof. split; [reflexivity|]. vm_compute. reflexivity. Qed.

Example test_add_comment :
  let comment :=
    VDict [("id", VStr "1"); ("data", VDict [("text", VStr "Test Comment")])] in
  res (add_comment "key" "token" (VStr "card_id") "Test Comment"
         (mkWorld [] [ok comment]))
  = Ok comment.
Proof. reflexivity. Qed.

(** ** Start-up *)

(** C5.  When one of the two credentials is in neither the environment nor
    the [.env] file, the process prints the error and exits with status 1;
    no request is sent. *)
Theorem main_exits_without_credentials dotenv environ w :
  (environ !! "TRELLO_API_KEY" = None /\ dotenv !! "TRELLO_API_KEY" = None)
  \/ (environ !! "TRELLO_TOKEN" = None /\ dotenv !! "TRELLO_TOKEN" = None) ->
  main dotenv environ w
  = (Raise (SystemExit 1), w, [EvPrint MsgCredentialsError]).
Proof.
  intros H. unfold main, api_module, load_dotenv.
  assert (unset ((environ ∪ dotenv) !! "TRELLO_API_KEY")
          || unset ((environ ∪ dotenv) !! "TRELLO_TOKEN") = true) as ->.
  { apply orb_true_iff.
    destruct H as [[H1 H2]|[H1 H2]]; [left|right];
      by rewrite (proj2 (lookup_union_None _ _ _) (conj H1 H2)). }
  reflexivity.
Qed.

Lemma main_exits_without_credentials_witness :
  ((({[ "TRELLO_API_KEY" := "abc" ]} : gmap string string) !! "TRELLO_TOKEN" = None
    /\ (∅ : gmap string string) !! "TRELLO_TOKEN" = None))
  /\ main ∅ {[ "TRELLO_API_KEY" := "abc" ]} (mkWorld ["1"] [])
     = (Raise (SystemExit 1), mkWorld ["1"] [], [EvPrint MsgCredentialsError]).
Proof.
  split; [by split|].
  apply (main_exits_without_credentials ∅ {[ "TRELLO_API_KEY" := "abc" ]}
           (mkWorld ["1"] [])).
  right. by split.
Defined.

(** ** Inversion of runs *)

Lemma bind_Ok_inv {A B} (m : M A) (f : A -> M B) w b w2 t :
  bind m f w = (Ok b, w2, t) ->
  exists a w1 t1 t2,
    m w = (Ok a, w1, t1) /\ f a w1 = (Ok b, w2, t2) /\ t = t1 ++ t2.
Proof.
  unfold bind. destruct (m w) as [[[a|e|] w1] t1]; [|done..].
  destruct (f a w1) as [[r w2'] t2] eqn:E. intros [= -> -> <-].
  by exists a, w1, t1, t2.
Qed.

Lemma bind_trace {A B} (m : M A) (f : A -> M B) w :
  trace (bind m f w)
  = match res (m w) with
    | Ok a => trace (m w) ++ trace (f a (after (m w)))
    | _ => trace (m w)
    end.
Proof.
  unfold bind, trace, res, after.
  destruct (m w) as [[[a|e|] w1] t1]; cbn; [|done..].
  by destruct (f a w1) as [[??]?].
Qed.

Lemma bind_res {A B} (m : M A) (f : A -> M B) w :
  res (bind m f w)
  = match res (m w) with
    | Ok a => res (f a (after (m w)))
    | Raise e => Raise e
    | Diverge => Diverge
    end.
Proof.
  unfold bind, trace, res, after.
  destruct (m w) as [[[a|e|] w1] t1]; cbn; [|done..].
  by destruct (f a w1) as [[??]?].
Qed.

(** Running a sequence step by step. *)
Lemma run_bind {A B} (m : M A) (f : A -> M B) w a w1 t1 r w2 t2 t :
  m w = (Ok a, w1, t1) -> f a w1 = (r, w2, t2) -> t = t1 ++ t2 ->
  bind m f w = (r, w2, t).
Proof. unfold bind. by intros -> -> ->. Qed.

Lemma run_bind_Raise {A B} (m : M A) (f : A -> M B) w e w1 t1 :
  m w = (Raise e, w1, t1) -> bind m f w = (Raise e, w1, t1).
Proof. unfold bind. by intros ->. Qed.

Lemma run_print msg w : print msg w = (Ok tt, w, [EvPrint msg]).
Proof. reflexivity. Qed.

Lemma run_ret {A} (a : A) w : ret a w = (Ok a, w, []).
Proof. reflexivity. Qed.

Lemma run_lift {A} (r : result A) w : lift r w = (r, w, []).
Proof. reflexivity. Qed.

(** ** The prompts of the workflow *)

Lemma Prompt_ask_plain text line rest net :
  Prompt_ask text None None (mkWorld (line :: rest) net)
  = (Ok (strip line), mkWorld rest net, [EvPrompt text; EvInput line]).
Proof.
  unfold Prompt_ask. cbn. by destruct (String.eqb line "").
Qed.

Lemma Prompt_ask_eof text choices default net :
  Prompt_ask text choices default (mkWorld [] net)
  = (Raise EOFError, mkWorld [] net, [EvPrompt text]).
Proof. reflexivity. Qed.

Lemma Prompt_ask_default text d line rest net :
  Prompt_ask text None (Some d) (mkWorld (line :: rest) net)
  = (Ok (if String.eqb line "" then d else strip line), mkWorld rest net,
     [EvPrompt text; EvInput line]).
Proof.
  unfold Prompt_ask. cbn. by destruct (String.eqb line "").
Qed.

Lemma Prompt_ask_Ok_plain text default w v w' t :
  Prompt_ask text None default w = (Ok v, w', t) ->
  exists line rest,
    stdin w = line :: rest /\ w' = mkWorld rest (network w)
    /\ t = [EvPrompt text; EvInput line]
    /\ v = match (if String.eqb line "" then default else None) with
           | Some d => d
           | None => strip line
           end.
Proof.
  unfold Prompt_ask. destruct (stdin w) as [|line rest]; [done|]. cbn.
  destruct (if String.eqb line "" then default else None) eqn:E;
    intros [= <- <- <-]; exists line, rest; by rewrite E.
Qed.

(** ** Card details *)

Lemma while_card_title_Ok fuel t w t' w' tr :
  while fuel card_title_turn t w = (Ok t', w', tr) ->
  MIN_CARD_TITLE_LENGTH <= String.length (strip t').
Proof.
  revert t w tr. induction fuel as [|fuel IH]; intros t w tr; [done|].
  cbn [while]. intros H.
  apply bind_Ok_inv in H as (c & w1 & t1 & t2 & Hturn & Hk & ->).
  unfold card_title_turn in Hturn.
  destruct (String.length (strip t) <? MIN_CARD_TITLE_LENGTH) eqn:E.
  - rewrite bind_print in Hturn.
    destruct c as [s|r].
    + by eapply IH.
    + unfold bind in Hturn.
      by destruct (Prompt_ask _ _ _ w) as [[[?|?|] ?] ?].
  - injection Hturn as <- <- <-. injection Hk as <- <- <-.
    by apply Nat.ltb_ge in E.
Qed.

Lemma card_title_turn_refused t line rest net :
  String.length (strip t) < MIN_CARD_TITLE_LENGTH ->
  card_title_turn t (mkWorld (line :: rest) net)
  = (Ok (Continue (strip line)), mkWorld rest net,
     [EvPrint (MsgTitleTooShort MIN_CARD_TITLE_LENGTH);
      EvPrompt "Enter card title"; EvInput line]).
Proof.
  intros Ht. apply Nat.ltb_lt in Ht. unfold card_title_turn. rewrite Ht.
  eapply run_bind; [apply run_print| |reflexivity].
  eapply run_bind; [apply Prompt_ask_plain|apply run_ret|reflexivity].
Qed.

Lemma card_title_turn_accepted t w :
  MIN_CARD_TITLE_LENGTH <= String.length (strip t) ->
  card_title_turn t w = (Ok (Break t), w, []).
Proof.
  intros Ht. apply Nat.ltb_ge in Ht. unfold card_title_turn. by rewrite Ht.
Qed.

Lemma while_card_title_refused shorts good rest net :
  MIN_CARD_TITLE_LENGTH <= String.length (strip good) ->
  Forall (fun l => String.length (strip l) < MIN_CARD_TITLE_LENGTH) shorts ->
  forall fuel t,
    String.length (strip t) < MIN_CARD_TITLE_LENGTH ->
    length shorts < fuel ->
    while (S fuel) card_title_turn t (mkWorld (shorts ++ good :: rest) net)
    = (Ok (strip good), mkWorld rest net,
       EvPrint (MsgTitleTooShort MIN_CARD_TITLE_LENGTH)
       :: flat_map title_refused shorts
       ++ [EvPrompt "Enter card title"; EvInput good]).
Proof.
  intros Hgood.
  induction 1 as [|s ss Hs Hss IH]; intros fuel t Ht Hfuel;
    (destruct fuel as [|fuel]; [cbn in Hfuel; lia|]);
    cbn [while app flat_map].
  - eapply run_bind; [by apply card_title_turn_refused | | reflexivity].
    cbn [while].
    eapply run_bind;
      [apply card_title_turn_accepted; by rewrite strip_idem
      | apply run_ret | reflexivity].
  - eapply run_bind; [by apply card_title_turn_refused | | reflexivity].
    apply IH; [by rewrite strip_idem | cbn in Hfuel; lia].
Qed.

(** The run in which titles that are too short are followed by one that
    is long enough, and then by a description. *)
Lemma get_card_details_accepted shorts good desc rest net :
  Forall (fun l => String.length (strip l) < MIN_CARD_TITLE_LENGTH) shorts ->
  MIN_CARD_TITLE_LENGTH <= String.length (strip good) ->
  get_card_details (mkWorld (shorts ++ good :: desc :: rest) net)
  = (Ok (strip good, strip desc), mkWorld rest net,
     EvPrint MsgAddCardDetails
     :: flat_map title_refused shorts
     ++ [EvPrompt "Enter card title"; EvInput good;
         EvPrompt "Enter card description (optional)"; EvInput desc]).
Proof.
  intros Hshorts Hgood.
  assert (Prompt_ask "Enter card description (optional)" None (Some "")
            (mkWorld (desc :: rest) net)
          = (Ok (strip desc), mkWorld rest net,
             [EvPrompt "Enter card description (optional)"; EvInput desc]))
    as Hdesc.
  { rewrite Prompt_ask_default. destruct (String.eqb desc "") eqn:E; [|done].
    by apply String.eqb_eq in E as ->. }
  unfold get_card_details.
  eapply run_bind; [apply run_print| |reflexivity].
  destruct shorts as [|s ss]; cbn [app flat_map].
  + eapply run_bind; [apply Prompt_ask_plain| |reflexivity].
    eapply run_bind; [| |].
    * unfold loop. cbn [stdin length while].
      eapply run_bind;
        [apply card_title_turn_accepted; by rewrite strip_idem
        | apply run_ret | reflexivity].
    * eapply run_bind; [apply Hdesc|apply run_ret|reflexivity].
    * reflexivity.
  + apply Forall_cons in Hshorts as [Hs Hss].
    eapply run_bind; [apply Prompt_ask_plain| |].
    * eapply run_bind; [| |].
      -- unfold loop. cbn [stdin].
         apply (while_card_title_refused ss good (desc :: rest) net Hgood Hss);
           [by rewrite strip_idem | rewrite length_app; cbn; lia].
      -- eapply run_bind; [apply Hdesc|apply run_ret|reflexivity].
      -- reflexivity.
    * cbn. by rewrite <- !app_assoc.
Qed.

(** C3.  [get_card_details] returns only with a title of at least
    [MIN_CARD_TITLE_LENGTH] characters, and never runs past its bound; and
    when the user types titles that are too short, then a long enough one,
    then a description, each short title is answered by the error message
    and a new prompt, and the first long enough title is the one returned. *)
Theorem get_card_details_title_length :
  (forall w, res (get_card_details w) <> Diverge)
  /\ (forall w title desc w' tr,
        get_card_details w = (Ok (title, desc), w', tr) ->
        MIN_CARD_TITLE_LENGTH <= String.length (strip title)
        /\ MIN_CARD_TITLE_LENGTH <= String.length title)
  /\ (forall shorts good desc rest net,
        Forall (fun l => String.length (strip l) < MIN_CARD_TITLE_LENGTH)
          shorts ->
        MIN_CARD_TITLE_LENGTH <= String.length (strip good) ->
        get_card_details (mkWorld (shorts ++ good :: desc :: rest) net)
        = (Ok (strip good, strip desc), mkWorld rest net,
           EvPrint MsgAddCardDetails
           :: flat_map title_refused shorts
           ++ [EvPrompt "Enter card title"; EvInput good;
               EvPrompt "Enter card description (optional)"; EvInput desc])).
Proof.
  split; [intros w; apply steady_get_card_details|]. split.
  - intros w title desc w' tr H. unfold get_card_details in H.
    rewrite bind_print in H. injection H as H1 H2 H3.
    destruct (bind (Prompt_ask "Enter card title" None None) _ w)
      as [[r wa] ta] eqn:E. cbn in H1, H2, H3. subst.
    apply bind_Ok_inv in E as (t0 & w1 & t1 & t2 & _ & E & _).
    apply bind_Ok_inv in E as (t3 & w2 & t4 & t5 & Hloop & E & _).
    apply bind_Ok_inv in E as (d & w3 & t6 & t7 & _ & E & _).
    injection E as <- <- <- <-.
    unfold loop in Hloop. apply while_card_title_Ok in Hloop.
    split; [done|]. pose proof (strip_length t3). lia.
  - apply get_card_details_accepted.
Qed.

Lemma get_card_details_title_length_witness :
  Forall (fun l => String.length (strip l) < MIN_CARD_TITLE_LENGTH) ["ab"; "  x "]
  /\ MIN_CARD_TITLE_LENGTH <= String.length (strip "Test Card")
  /\ get_card_details (mkWorld ["ab"; "  x "; "Test Card"; ""; "F"] [])
     = (Ok ("Test Card", ""), mkWorld ["F"] [],
        [EvPrint MsgAddCardDetails;
         EvPrompt "Enter card title"; EvInput "ab";
         EvPrint (MsgTitleTooShort 3);
         EvPrompt "Enter card title"; EvInput "  x ";
         EvPrint (MsgTitleTooShort 3);
         EvPrompt "Enter card title"; EvInput "Test Card";
         EvPrompt "Enter card description (optional)"; EvInput ""]).
Proof.
  assert (Forall (fun l => String.length (strip l) < MIN_CARD_TITLE_LENGTH)
            ["ab"; "  x "]) as H1
    by (repeat (apply Forall_cons_2; [vm_compute; lia|]); apply Forall_nil_2).
  assert (MIN_CARD_TITLE_LENGTH <= String.length (strip "Test Card")) as H2
    by (vm_compute; lia).
  split; [exact H1|]. split; [exact H2|].
  exact (proj2 (proj2 get_card_details_title_length)
           ["ab"; "  x "] "Test Card" "" ["F"] [] H1 H2).
Defined.

(** ** What an action shows and what it returns *)

Lemma emits_ret {A} P (a : A) : emits P (ret a).
Proof. intros w. constructor. Qed.

Lemma emits_lift {A} P (r : result A) : emits P (lift r).
Proof. intros w. constructor. Qed.

Lemma emits_print P msg : P (EvPrint msg) -> emits P (print msg).
Proof. intros H w. by repeat constructor. Qed.

Lemma emits_bind_returns {A B} P Q (m : M A) (f : A -> M B) :
  emits P m -> returns Q m -> (forall a, Q a -> emits P (f a)) ->
  emits P (bind m f).
Proof.
  intros Hm HQ Hf w. rewrite bind_trace.
  specialize (Hm w). specialize (HQ w).
  destruct (res (m w)) as [a| |]; [|done..].
  apply Forall_app. split; [done|]. apply Hf. by apply HQ.
Qed.

Lemma emits_bind {A B} P (m : M A) (f : A -> M B) :
  emits P m -> (forall a, emits P (f a)) -> emits P (bind m f).
Proof.
  intros Hm Hf. apply (emits_bind_returns P (fun _ => True)); [done| |auto].
  by intros w a _.
Qed.

Lemma returns_bind {A B} Q (m : M A) (f : A -> M B) :
  (forall a, returns Q (f a)) -> returns Q (bind m f).
Proof.
  intros Hf w b. specialize (Hf) . unfold bind, res.
  destruct (m w) as [[[a|e|] w1] t1]; [|done..].
  specialize (Hf a w1 b). unfold res in Hf.
  by destruct (f a w1) as [[r w2] t2].
Qed.

Lemma returns_ret {A} (Q : A -> Prop) (a : A) : Q a -> returns Q (ret a).
Proof. intros H w b [= <-]. done. Qed.

Lemma emits_ask_lines P text choices default lines :
  P (EvPrompt text) -> (forall l, P (EvInput l)) ->
  P (EvPrint MsgInvalidResponse) ->
  Forall P (ask_lines text choices default lines).2.
Proof.
  intros H1 H2 H3. induction lines as [|line rest IH]; cbn.
  { by repeat constructor. }
  destruct (if String.eqb line "" then default else None).
  { by repeat constructor. }
  destruct (match choices with Some cs => str_in (strip line) cs | None => true end).
  { by repeat constructor. }
  destruct (ask_lines text choices default rest) as [[r rest'] t]; cbn in *.
  by repeat constructor.
Qed.

Lemma emits_Prompt_ask P text choices default :
  P (EvPrompt text) -> (forall l, P (EvInput l)) ->
  P (EvPrint MsgInvalidResponse) ->
  emits P (Prompt_ask text choices default).
Proof.
  intros H1 H2 H3 w. unfold Prompt_ask, trace.
  pose proof (emits_ask_lines P text choices default (stdin w) H1 H2 H3).
  by destruct (ask_lines text choices default (stdin w)) as [[r rest] t].
Qed.

Lemma emits_Confirm_ask P text default :
  P (EvPrompt text) -> (forall l, P (EvInput l)) ->
  P (EvPrint MsgInvalidResponse) ->
  emits P (Confirm_ask text default).
Proof.
  intros H1 H2 H3 w. unfold Confirm_ask, trace.
  assert (Forall P (confirm_lines text default (stdin w)).2) as H.
  { induction (stdin w) as [|line rest IH]; cbn -[str_in].
    { by repeat constructor. }
    destruct (if String.eqb line "" then default else None).
    { by repeat constructor. }
    destruct (str_in (lower (strip line)) ["y"; "n"]).
    { by repeat constructor. }
    destruct (confirm_lines text default rest) as [[r rest'] t]; cbn in *.
    by repeat constructor. }
  by destruct (confirm_lines text default (stdin w)) as [[r rest] t].
Qed.

Lemma emits_while {S R} P (body : S -> M (ctl S R)) :
  (forall s, emits P (body s)) ->
  forall fuel s, emits P (while fuel body s).
Proof.
  intros Hb fuel. induction fuel as [|fuel IH]; intros s; cbn [while].
  { apply emits_lift. }
  apply emits_bind; [done|]. intros [s'|r]; [apply IH|apply emits_ret].
Qed.

Lemma emits_loop {S R} P (body : S -> M (ctl S R)) s :
  (forall s, emits P (body s)) -> emits P (loop body s).
Proof. intros Hb w. unfold loop. by apply emits_while. Qed.

(** A loop that keeps [I] on its state returns only what its turns
    [Break] with. *)
Lemma returns_while {S R} (I : S -> Prop) (Q : R -> Prop)
    (body : S -> M (ctl S R)) :
  (forall s, I s ->
     returns (fun c => match c with Continue s' => I s' | Break r => Q r end)
       (body s)) ->
  forall fuel s, I s -> returns Q (while fuel body s).
Proof.
  intros Hb fuel. induction fuel as [|fuel IH]; intros s Hs w r; cbn [while].
  { done. }
  specialize (Hb s Hs w). unfold bind, res in *.
  destruct (body s w) as [[[c|e|] w1] t1]; [|done..].
  specialize (Hb c eq_refl). destruct c as [s'|r'].
  - specialize (IH s' Hb w1 r).
    destruct (while fuel body s' w1) as [[r2 w2] t2]. by apply IH.
  - cbn. by intros [= <-].
Qed.

Lemma returns_loop {S R} (I : S -> Prop) (Q : R -> Prop)
    (body : S -> M (ctl S R)) s :
  (forall s, I s ->
     returns (fun c => match c with Continue s' => I s' | Break r => Q r end)
       (body s)) ->
  I s -> returns Q (loop body s).
Proof. intros Hb Hs w. unfold loop. by apply (returns_while I). Qed.

Lemma returns_Prompt_ask_choices text cs d :
  d ∈ cs -> returns (fun v => v ∈ cs) (Prompt_ask text (Some cs) (Some d)).
Proof.
  intros Hd w v. unfold Prompt_ask, res.
  assert (forall lines, (ask_lines text (Some cs) (Some d) lines).1.1 = Ok v ->
                        v ∈ cs) as H.
  { induction lines as [|line rest IH]; cbn; [done|].
    destruct (String.eqb line ""); [by intros [= <-]|].
    destruct (str_in (strip line) cs) eqn:E.
    - intros [= <-]. by apply str_in_spec.
    - destruct (ask_lines text (Some cs) (Some d) rest) as [[r rest'] t].
      apply IH. }
  specialize (H (stdin w)).
  by destruct (ask_lines text (Some cs) (Some d) (stdin w)) as [[r rest] t].
Qed.

(** ** Runs that differ by events shown first *)

Lemma prepend_prepend {A} t1 t2 (o : result A * World * list event) :
  prepend t1 (prepend t2 o) = prepend (t1 ++ t2) o.
Proof. unfold prepend. cbn. by rewrite app_assoc. Qed.

Lemma prepend_nil {A} (o : result A * World * list event) : prepend [] o = o.
Proof. by destruct o as [[??]?]. Qed.

Lemma bind_Ok_prepend {A B} (m : M A) (f : A -> M B) w a w1 t1 :
  m w = (Ok a, w1, t1) -> bind m f w = prepend t1 (f a w1).
Proof. unfold bind, prepend. intros ->. by destruct (f a w1) as [[??]?]. Qed.

Lemma bind_prepend {A B} (m m' : M A) (f : A -> M B) w w' t :
  m w = prepend t (m' w') -> bind m f w = prepend t (bind m' f w').
Proof.
  unfold bind, prepend. intros ->.
  destruct (m' w') as [[[a|e|] w1] t1]; cbn; [|done..].
  destruct (f a w1) as [[??]?]; cbn. by rewrite app_assoc.
Qed.

(** A turn that reads one line and asks for another turn. *)
Lemma loop_turn {S R} (body : S -> M (ctl S R)) s s' line rest net t :
  body s (mkWorld (line :: rest) net)
  = (Ok (Continue s'), mkWorld rest net, t) ->
  loop body s (mkWorld (line :: rest) net)
  = prepend t (loop body s' (mkWorld rest net)).
Proof.
  intros H. unfold loop. cbn [stdin length].
  exact (bind_Ok_prepend _
           (fun c => match c with
                     | Continue s' => while (Datatypes.S (length rest)) body s'
                     | Break r => ret r
                     end) _ _ _ _ H).
Qed.

(** A turn that leaves the loop. *)
Lemma loop_break {S R} (body : S -> M (ctl S R)) s r w :
  body s w = (Ok (Break r), w, []) -> loop body s w = (Ok r, w, []).
Proof.
  intros H. unfold loop. cbn [while].
  eapply run_bind; [apply H|apply run_ret|reflexivity].
Qed.

Lemma Prompt_ask_refused text cs default line rest net :
  line <> "" -> str_in (strip line) cs = false ->
  Prompt_ask text (Some cs) default (mkWorld (line :: rest) net)
  = prepend [EvPrompt text; EvInput line; EvPrint MsgInvalidResponse]
      (Prompt_ask text (Some cs) default (mkWorld rest net)).
Proof.
  intros Hne Hout. unfold Prompt_ask, prepend. cbn.
  apply String.eqb_neq in Hne. rewrite Hne, Hout.
  by destruct (ask_lines text (Some cs) default rest) as [[??]?].
Qed.

(** ** New labels *)

Section NewLabel.

Variables API_KEY TOKEN : string.

Lemma trello_post_trace e d w :
  trace (trello_post API_KEY TOKEN e d w)
  = [EvHttp (Request POST TRELLO_API_BASE_URL e (with_fields API_KEY TOKEN d))].
Proof.
  unfold trello_post, bind, Requests.send, lift, trace.
  destruct (network w) as [|[r|] rest]; [done| |done].
  destruct (Requests.raise_for_status r); [|done..].
  by destruct (Requests.json r).
Qed.

Lemma trello_get_trace e p w :
  trace (trello_get API_KEY TOKEN e p w)
  = [EvHttp (Request GET TRELLO_API_BASE_URL e (with_fields API_KEY TOKEN p))].
Proof.
  unfold trello_get, bind, Requests.send, lift, trace.
  destruct (network w) as [|[r|] rest]; [done| |done].
  destruct (Requests.raise_for_status r); [|done..].
  by destruct (Requests.json r).
Qed.

Lemma label_name_turn_refused n line rest net :
  strip n = "" ->
  label_name_turn n (mkWorld (line :: rest) net)
  = (Ok (Continue (strip line)), mkWorld rest net,
     [EvPrint MsgLabelNameEmpty; EvPrompt "Enter new label name";
      EvInput line]).
Proof.
  intros Hn. unfold label_name_turn. rewrite Hn. cbn [truthy String.eqb negb].
  eapply run_bind; [apply run_print| |reflexivity].
  eapply run_bind; [apply Prompt_ask_plain|apply run_ret|reflexivity].
Qed.

Lemma label_name_turn_accepted n w :
  strip n <> "" -> label_name_turn n w = (Ok (Break n), w, []).
Proof.
  intros Hn. unfold label_name_turn, truthy.
  apply String.eqb_neq in Hn. by rewrite Hn.
Qed.

Lemma returns_label_name n :
  returns (fun name => strip name <> "") (loop label_name_turn n).
Proof.
  apply (returns_loop (fun _ => True)); [|done].
  intros s _. unfold label_name_turn, truthy.
  destruct (String.eqb (strip s) "") eqn:E; cbn [negb].
  - apply returns_bind. intros _. apply returns_bind. intros name.
    by apply returns_ret.
  - apply returns_ret. by apply String.eqb_neq.
Qed.

Lemma emits_create_new_label board_id :
  emits (new_label_event API_KEY TOKEN board_id) (create_new_label API_KEY TOKEN board_id).
Proof.
  unfold create_new_label.
  apply emits_bind; [by apply emits_Prompt_ask|intros n0].
  apply (emits_bind_returns _ (fun name => strip name <> ""));
    [|apply returns_label_name|intros name Hname].
  { apply emits_loop. intros s. unfold label_name_turn.
    case_match; [|apply emits_ret].
    apply emits_bind; [by apply emits_print|intros _].
    apply emits_bind; [by apply emits_Prompt_ask|intros]. apply emits_ret. }
  apply (emits_bind_returns _ (fun color => color ∈ VALID_COLORS));
    [by apply emits_Prompt_ask| |intros color Hcolor].
  { apply returns_Prompt_ask_choices. by apply str_in_spec. }
  apply emits_bind; [|intros; apply emits_bind;
                       [by apply emits_print|intros; apply emits_ret]].
  intros w. unfold create_label. rewrite trello_post_trace.
  repeat constructor. by exists name, color.
Qed.

Lemma new_label_request_name board_id name color :
  req_fields (new_label_request API_KEY TOKEN board_id name color) !! "name"
  = Some (VStr name).
Proof.
  unfold new_label_request, with_fields, create_label_data. cbn [req_fields].
  case_decide as E.
  { by apply (f_equal (fun m : gmap string value => m !! "name")) in E. }
  by apply lookup_union_Some_l.
Qed.

Lemma new_label_request_color board_id name color :
  req_fields (new_label_request API_KEY TOKEN board_id name color) !! "color"
  = Some (if String.eqb color "null" then VNone else VStr color).
Proof.
  unfold new_label_request, with_fields, create_label_data. cbn [req_fields].
  case_decide as E.
  { by apply (f_equal (fun m : gmap string value => m !! "name")) in E. }
  by apply lookup_union_Some_l.
Qed.

(** C7.  Every request that [create_new_label] sends is the creation of a
    label whose name is not empty (not even blank); and a name that is
    empty or blank is answered by the error message and the same prompt
    again, after which the creation goes on as if that line had not been
    typed. *)
Theorem create_new_label_name_not_empty board_id :
  (forall w req,
     EvHttp req ∈ trace (create_new_label API_KEY TOKEN board_id w) ->
     req_method req = POST /\ req_endpoint req = labels
     /\ exists name,
          req_fields req !! "name" = Some (VStr name)
          /\ name <> "" /\ strip name <> "")
  /\ (forall line rest net,
        strip line = "" ->
        create_new_label API_KEY TOKEN board_id (mkWorld (line :: rest) net)
        = prepend [EvPrompt "Enter new label name"; EvInput line;
                   EvPrint MsgLabelNameEmpty]
            (create_new_label API_KEY TOKEN board_id (mkWorld rest net))).
Proof.
  split.
  - intros w req Hin.
    pose proof (emits_create_new_label board_id w) as H.
    rewrite Forall_forall in H. specialize (H _ Hin).
    destruct H as (name & color & -> & Hname & _).
    repeat split; [].
    exists name. split; [apply new_label_request_name|]. split; [|done].
    by intros ->.
  - intros line rest net Hline. unfold create_new_label.
    rewrite (bind_Ok_prepend _ _ _ _ _ _ (Prompt_ask_plain _ line rest net)).
    destruct rest as [|line' rest'].
    + rewrite (bind_Raise _ _ _ _ _ _ (Prompt_ask_eof _ None None net)).
      unfold loop. cbn [stdin length while].
      unfold label_name_turn. rewrite strip_idem, Hline.
      reflexivity.
    + rewrite (bind_Ok_prepend _ _ _ _ _ _ (Prompt_ask_plain _ line' rest' net)).
      rewrite prepend_prepend.
      change ([EvPrompt "Enter new label name"; EvInput line;
               EvPrint MsgLabelNameEmpty]
              ++ [EvPrompt "Enter new label name"; EvInput line'])
        with ([EvPrompt "Enter new label name"; EvInput line]
              ++ [EvPrint MsgLabelNameEmpty;
                  EvPrompt "Enter new label name"; EvInput line']).
      rewrite <- prepend_prepend. f_equal.
      apply bind_prepend. apply loop_turn.
      apply label_name_turn_refused. by rewrite strip_idem.
Qed.

(** C6.  Every request that [create_new_label] sends carries the colour
    that the prompt accepted, which is one of [VALID_COLORS] ([null] being
    sent as [None]); and an answer to the colour prompt that is not one of
    them is refused and the prompt shown again, after which the creation
    goes on as if that line had not been typed. *)
Theorem create_new_label_color_valid board_id :
  (forall w req,
     EvHttp req ∈ trace (create_new_label API_KEY TOKEN board_id w) ->
     exists color,
       color ∈ VALID_COLORS
       /\ req_fields req !! "color"
          = Some (if String.eqb color "null" then VNone else VStr color))
  /\ (forall name line rest net,
        strip name <> "" -> line <> "" -> strip line ∉ VALID_COLORS ->
        exists o,
          create_new_label API_KEY TOKEN board_id (mkWorld (name :: rest) net)
          = prepend [EvPrompt "Enter new label name"; EvInput name] o
          /\ create_new_label API_KEY TOKEN board_id
               (mkWorld (name :: line :: rest) net)
             = prepend [EvPrompt "Enter new label name"; EvInput name;
                        EvPrompt "Enter label color"; EvInput line;
                        EvPrint MsgInvalidResponse] o).
Proof.
  split.
  - intros w req Hin.
    pose proof (emits_create_new_label board_id w) as H.
    rewrite Forall_forall in H. specialize (H _ Hin).
    destruct H as (name & color & -> & _ & Hcolor).
    exists color. split; [done|apply new_label_request_color].
  - intros name line rest net Hname Hline Hout.
    assert (str_in (strip line) VALID_COLORS = false) as Hout'.
    { destruct (str_in (strip line) VALID_COLORS) eqn:E; [|done].
      by apply str_in_spec in E. }
    assert (forall w, loop label_name_turn (strip name) w
                      = (Ok (strip name), w, [])) as Hloop.
    { intros w. apply loop_break.
      apply label_name_turn_accepted. by rewrite strip_idem. }
    unfold create_new_label.
    rewrite (bind_Ok_prepend _ _ _ _ _ _ (Prompt_ask_plain _ name rest net)).
    rewrite (bind_Ok_prepend _ _ _ _ _ _
               (Prompt_ask_plain _ name (line :: rest) net)).
    eexists. split; [reflexivity|].
    rewrite !(bind_Ok_prepend _ _ _ _ _ _ (Hloop _)).
    change ([EvPrompt "Enter new label name"; EvInput name;
             EvPrompt "Enter label color"; EvInput line;
             EvPrint MsgInvalidResponse])
      with ([EvPrompt "Enter new label name"; EvInput name]
            ++ [EvPrompt "Enter label color"; EvInput line;
                EvPrint MsgInvalidResponse]).
    rewrite <- prepend_prepend. f_equal.
    rewrite !prepend_nil. apply bind_prepend. by apply Prompt_ask_refused.
Qed.

End NewLabel.

Lemma create_new_label_name_not_empty_witness :
  strip "  " = ""
  /\ create_new_label "key" "token" (VStr "b1")
       (mkWorld ["  "; "Bug"; "red"] [Some (Response 200 (Some (VDict [])))])
     = prepend [EvPrompt "Enter new label name"; EvInput "  ";
                EvPrint MsgLabelNameEmpty]
         (create_new_label "key" "token" (VStr "b1")
            (mkWorld ["Bug"; "red"] [Some (Response 200 (Some (VDict [])))])).
Proof.
  split; [reflexivity|].
  apply (proj2 (create_new_label_name_not_empty "key" "token" (VStr "b1"))).
  reflexivity.
Defined.

Lemma create_new_label_color_valid_witness :
  strip "Bug" <> "" /\ "mauve" <> "" /\ (strip "mauve" ∉ VALID_COLORS)
  /\ exists o,
       create_new_label "key" "token" (VStr "b1")
         (mkWorld ["Bug"; "red"] [Some (Response 200 (Some (VDict [])))])
       = prepend [EvPrompt "Enter new label name"; EvInput "Bug"] o
       /\ create_new_label "key" "token" (VStr "b1")
            (mkWorld ["Bug"; "mauve"; "red"]
               [Some (Response 200 (Some (VDict [])))])
          = prepend [EvPrompt "Enter new label name"; EvInput "Bug";
                     EvPrompt "Enter label color"; EvInput "mauve";
                     EvPrint MsgInvalidResponse] o.
Proof.
  assert (strip "Bug" <> "") as H1 by (vm_compute; discriminate).
  assert ("mauve" <> "") as H2 by discriminate.
  assert (strip "mauve" ∉ VALID_COLORS) as H3.
  { intros H. apply str_in_spec in H. vm_compute in H. discriminate. }
  split; [exact H1|]. split; [exact H2|]. split; [exact H3|].
  exact (proj2 (create_new_label_color_valid "key" "token" (VStr "b1"))
           "Bug" "mauve" ["red"] [Some (Response 200 (Some (VDict [])))]
           H1 H2 H3).
Defined.

(** ** Decimal numerals *)






(** ** Dictionaries *)


Lemma dict_get_None {A} (d : list (string * A)) k :
  dict_get d k = None <-> k ∉ keys d.
Proof.
  induction d as [|[k' v'] d IH]; cbn.
  - split; [intros _; apply not_elem_of_nil|done].
  - rewrite not_elem_of_cons. destruct (String.eqb k' k) eqn:E.
    + apply String.eqb_eq in E as ->. split; [done|]. by intros [? _].
    + apply String.eqb_neq in E. rewrite IH. split; [|tauto].
      intros H. split; [congruence|done].
Qed.

Lemma dict_set_fresh {A} (d : list (string * A)) k v :
  dict_get d k = None -> dict_set d k v = d ++ [(k, v)].
Proof.
  induction d as [|[k' v'] d IH]; cbn; [done|].
  destruct (String.eqb k' k); [done|]. intros H. by rewrite IH.
Qed.

Lemma numbered_enumerate1 {A} (xs : list A) : numbered (enumerate1 xs).
Proof.
  unfold numbered, enumerate1, keys.
  cut (forall k, map fst (imap (fun i x => (pretty (S (k + i)), x)) xs)
                 = map pretty (seq (S k) (length (imap (fun i x => (pretty (S (k + i)), x)) xs)))).
  { intros H. apply (H 0). }
  induction xs as [|x xs IH]; intros k; [done|].
  cbn. rewrite Nat.add_0_r. f_equal.
  rewrite (imap_ext _ (fun i x => (pretty (S (S k + i)), x)))
    by (intros; cbn; do 2 f_equal; lia).
  apply (IH (S k)).
Qed.

Lemma numbered_next_fresh {A} (d : list (string * A)) :
  numbered d -> dict_get d (pretty (length d + 1)) = None.
Proof.
  intros H. apply dict_get_None. rewrite H.
  intros Hin. apply list_elem_of_fmap in Hin as (i & Hi & Hin).
  apply (inj pretty) in Hi. subst i.
  apply elem_of_seq in Hin. lia.
Qed.

Lemma numbered_append {A} (d : list (string * A)) v :
  numbered d -> numbered (d ++ [(pretty (length d + 1), v)]).
Proof.
  unfold numbered, keys. intros H.
  rewrite map_app, length_app, H. cbn [length map].
  by rewrite Nat.add_1_r, seq_S, map_app.
Qed.

(** ** Selecting labels *)

Section SelectLabels.

Variables API_KEY TOKEN : string.



(** The menu of [select_labels] is numbered from the start and stays so. *)
Lemma select_labels_turn_numbered board_id choices selected :
  numbered choices ->
  returns (fun c => match c with
                    | Continue st => numbered st.1
                    | Break _ => True
                    end)
    (select_labels_turn API_KEY TOKEN board_id (choices, selected)).
Proof.
  intros Hnum. unfold select_labels_turn.
  apply returns_bind. intros _. apply returns_bind. intros rows.
  apply returns_bind. intros _. apply returns_bind. intros sel.
  repeat case_match.
  - by apply returns_ret.
  - apply returns_bind. intros new_label. apply returns_bind. intros new_id.
    apply returns_ret. cbn.
    rewrite (dict_set_fresh _ _ _ (numbered_next_fresh _ Hnum)).
    by apply numbered_append.
  - apply returns_bind. intros label. apply returns_bind. intros label_id.
    apply returns_bind. intros _. by apply returns_ret.
  - apply returns_bind. intros _. by apply returns_ret.
Qed.

End SelectLabels.


(** ** The order of the steps of the workflow *)

Lemma steps_of_app t1 t2 : steps_of (t1 ++ t2) = steps_of t1 ++ steps_of t2.
Proof. apply omap_app. Qed.

Lemma steps_of_silent t :
  Forall (fun e => step_of e = None) t -> steps_of t = [].
Proof.
  induction 1 as [|e t He _ IH]; [done|]. unfold steps_of in *.
  cbn -[step_of]. by rewrite He.
Qed.

Lemma marks_silent {A} (m : M A) Q :
  emits (fun e => step_of e = None) m -> marks m [] Q.
Proof. intros H w. by rewrite (steps_of_silent _ (H w)). Qed.

Lemma marks_ret {A} (a : A) Q : marks (ret a) [] Q.
Proof. intros w. by split. Qed.

Lemma marks_ret_unless {A} (a : A) L (Q : A -> Prop) :
  ~ Q a -> marks (ret a) L Q.
Proof.
  intros H w. split; [apply prefix_nil|]. by intros b [= <-] HQ.
Qed.

Lemma marks_lift {A} (r : result A) Q : marks (lift r) [] Q.
Proof. intros w. by split. Qed.

Lemma marks_print msg s Q :
  step_of (EvPrint msg) = Some s -> marks (print msg) [s] Q.
Proof. intros H w. unfold steps_of. cbn -[step_of]. by rewrite H. Qed.

Lemma marks_weaken {A} (m : M A) L (Q Q' : A -> Prop) :
  marks m L Q -> (forall a, Q' a -> Q a) -> marks m L Q'.
Proof.
  intros H HQ w. destruct (H w) as [H1 H2]. split; [done|]. eauto.
Qed.

Lemma marks_bind {A B} (m : M A) (f : A -> M B) L1 L2 Q :
  marks m L1 always -> (forall a, marks (f a) L2 Q) ->
  marks (bind m f) (L1 ++ L2) Q.
Proof.
  intros Hm Hf w. destruct (Hm w) as [H1 H2].
  rewrite bind_trace, bind_res.
  destruct (res (m w)) as [a|e|];
    [|split; [by apply prefix_app_r|done]..].
  rewrite steps_of_app, (H2 a eq_refl I).
  destruct (Hf a (after (m w))) as [H3 H4]. split.
  - by apply prefix_app.
  - intros b Hb HQ. by rewrite (H4 b Hb HQ).
Qed.

(** The sequence after a step that may be left undone: the rest runs its
    own steps when the step was done, and none when it was not. *)
Lemma marks_bind_when {A B} (m : M A) (f : A -> M B) L1 L2 (Q1 : A -> Prop) Q :
  marks m L1 Q1 ->
  (forall a, Q1 a -> marks (f a) L2 Q) ->
  (forall a, ~ Q1 a -> marks (f a) [] never) ->
  (forall a, Q1 a \/ ~ Q1 a) ->
  marks (bind m f) (L1 ++ L2) never.
Proof.
  intros Hm Hf Hg Hdec w. destruct (Hm w) as [H1 H2].
  split; [|by intros b _ []].
  rewrite bind_trace.
  destruct (res (m w)) as [a|e|]; [|by apply prefix_app_r..].
  rewrite steps_of_app. destruct (Hdec a) as [Ha|Ha].
  - rewrite (H2 a eq_refl Ha). apply prefix_app. apply (Hf a Ha).
  - destruct (Hg a Ha (after (m w))) as [H3 _].
    apply prefix_nil_inv in H3. rewrite H3, app_nil_r.
    by apply prefix_app_r.
Qed.

Lemma marks_try_except {A} (m : M A) (h : exn -> option (M A)) L :
  marks m L never ->
  (forall e k, h e = Some k -> emits (fun e => step_of e = None) k) ->
  marks (try_except m h) L never.
Proof.
  intros Hm Hh w. destruct (Hm w) as [H1 _]. split; [|by intros].
  unfold try_except, trace in *.
  destruct (m w) as [[[a|e|] w1] t1]; cbn [snd] in *; [done| |done].
  destruct (h e) as [k|] eqn:E; [|done].
  specialize (Hh e k E w1). unfold trace in Hh.
  destruct (k w1) as [[r w2] t2]; cbn [snd] in *.
  by rewrite steps_of_app, (steps_of_silent _ Hh), app_nil_r.
Qed.

(** An occurrence of a step that [L] has only once is at its place in
    [L]. *)
Lemma prefix_single_occurrence {A} (x : A) (p s q r : list A) :
  x ∉ q -> x ∉ r -> (p ++ x :: s) `prefix_of` (q ++ x :: r) -> p = q.
Proof.
  revert q. induction p as [|a p IH]; intros [|b q] Hq Hr Hp; cbn in *.
  - done.
  - apply prefix_cons_inv_1 in Hp as ->. by apply not_elem_of_cons in Hq as [].
  - pose proof (prefix_cons_inv_1 _ _ _ _ Hp) as ->.
    apply prefix_cons_inv_2 in Hp. destruct Hp as [k ->].
    exfalso. apply Hr. set_solver.
  - pose proof (prefix_cons_inv_1 _ _ _ _ Hp) as ->.
    apply prefix_cons_inv_2 in Hp. apply not_elem_of_cons in Hq as [_ Hq].
    f_equal. by apply IH.
Qed.

Lemma marks_exact {A} (m : M A) L Q :
  (forall w, steps_of (trace (m w)) = L) -> marks m L Q.
Proof. intros H w. by rewrite H. Qed.

Lemma marks_bind_silent {A B} (m : M A) (f : A -> M B) L Q :
  emits (fun e => step_of e = None) m -> (forall a, marks (f a) L Q) ->
  marks (bind m f) L Q.
Proof.
  intros Hm Hf. apply (marks_bind m f [] L); [|done].
  by apply marks_silent.
Qed.

Lemma marks_then_silent {A B} (m : M A) (f : A -> M B) L Q :
  marks m L Q -> (forall a, emits (fun e => step_of e = None) (f a)) ->
  marks (bind m f) L never.
Proof.
  intros Hm Hf w. destruct (Hm w) as [H1 _]. split; [|by intros].
  rewrite bind_trace. destruct (res (m w)) as [a|e|]; [|done..].
  by rewrite steps_of_app, (steps_of_silent _ (Hf a _)), app_nil_r.
Qed.

(** Actions without a step: [emits] follows the shape of the code. *)
Ltac silent_step :=
  match goal with
  | |- emits _ (bind _ _) => apply emits_bind; [|intros]
  | |- emits _ (ret _) => apply emits_ret
  | |- emits _ (lift _) => apply emits_lift
  | |- emits _ (print _) => apply emits_print; reflexivity
  | |- emits _ (Prompt_ask _ _ _) =>
      apply emits_Prompt_ask; [reflexivity|intros; reflexivity|reflexivity]
  | |- emits _ (Confirm_ask _ _) =>
      apply emits_Confirm_ask; [reflexivity|intros; reflexivity|reflexivity]
  | |- emits _ (loop _ _) => apply emits_loop; intros
  | |- emits _ (if ?c then _ else _) => destruct c
  | |- emits _ (let '(_, _) := ?x in _) => destruct x
  end.
Ltac silent := repeat silent_step.

Ltac not_in_list :=
  let H := fresh in
  intros H;
  repeat (apply elem_of_cons in H as [H|H]; [discriminate|]);
  by apply elem_of_nil in H.

Section Order.

Variables API_KEY TOKEN : string.

Lemma steps_trello_get e p w :
  steps_of (trace (trello_get API_KEY TOKEN e p w))
  = steps_of [EvHttp (Request GET TRELLO_API_BASE_URL e
                        (with_fields API_KEY TOKEN p))].
Proof. by rewrite trello_get_trace. Qed.

Lemma steps_trello_post e p w :
  steps_of (trace (trello_post API_KEY TOKEN e p w))
  = steps_of [EvHttp (Request POST TRELLO_API_BASE_URL e
                        (with_fields API_KEY TOKEN p))].
Proof. by rewrite trello_post_trace. Qed.

Lemma silent_create_new_label board_id :
  emits (fun e => step_of e = None) (create_new_label API_KEY TOKEN board_id).
Proof.
  unfold create_new_label, label_name_turn. silent.
  intros w. unfold create_label. rewrite trello_post_trace.
  by repeat constructor.
Qed.

Lemma silent_select_labels_turn board_id st :
  emits (fun e => step_of e = None)
    (select_labels_turn API_KEY TOKEN board_id st).
Proof.
  unfold select_labels_turn. destruct st as [choices selected]. silent.
  apply silent_create_new_label.
Qed.

Lemma silent_handlers e k :
  handlers e = Some k -> emits (fun e => step_of e = None) k.
Proof. unfold handlers. repeat case_match; intros [= <-]; silent. Qed.

Lemma marks_select_board :
  marks (select_board API_KEY TOKEN) [StepBoards; StepBoardSelected]
    (fun v => truthy v = true).
Proof.
  unfold select_board.
  apply (marks_bind _ _ [StepBoards] [StepBoardSelected]).
  { apply marks_exact. intros w. unfold get_boards.
    by rewrite steps_trello_get. }
  intros boards. destruct (negb (truthy boards)).
  { apply marks_bind_silent; [silent|intros _]. by apply marks_ret_unless. }
  apply marks_bind_silent; [silent|intros items].
  apply marks_bind_silent; [silent|intros rows].
  apply marks_bind_silent; [silent|intros _].
  apply marks_bind_silent; [silent|intros sel].
  apply marks_bind_silent; [silent|intros selected_board].
  apply marks_bind_silent; [silent|intros name].
  apply (marks_bind _ _ [StepBoardSelected] []); [by apply marks_print|].
  intros _. apply marks_lift.
Qed.

Lemma marks_select_list board_id :
  marks (select_list API_KEY TOKEN board_id) [StepLists; StepListSelected]
    (fun v => truthy v = true).
Proof.
  unfold select_list.
  apply (marks_bind _ _ [StepLists] [StepListSelected]).
  { apply marks_exact. intros w. unfold get_lists.
    by rewrite steps_trello_get. }
  intros lists. destruct (negb (truthy lists)).
  { apply marks_bind_silent; [silent|intros _]. by apply marks_ret_unless. }
  apply marks_bind_silent; [silent|intros items].
  apply marks_bind_silent; [silent|intros rows].
  apply marks_bind_silent; [silent|intros _].
  apply marks_bind_silent; [silent|intros sel].
  apply marks_bind_silent; [silent|intros selected_list].
  apply marks_bind_silent; [silent|intros name].
  apply (marks_bind _ _ [StepListSelected] []); [by apply marks_print|].
  intros _. apply marks_lift.
Qed.

Lemma marks_get_card_details :
  marks get_card_details [StepCardDetails] always.
Proof.
  unfold get_card_details.
  apply marks_bind_silent; [silent|intros _].
  apply marks_bind_silent; [silent|intros t0].
  apply marks_bind_silent; [unfold card_title_turn; silent|intros title].
  apply (marks_bind _ _ [StepCardDetails] []); [|intros; apply marks_ret].
  apply marks_exact. intros w. unfold Prompt_ask, trace.
  destruct (stdin w) as [|line rest]; [done|]. cbn.
  by destruct (String.eqb line "").
Qed.

Lemma marks_select_labels board_id :
  marks (select_labels API_KEY TOKEN board_id) [StepLabels] always.
Proof.
  unfold select_labels.
  apply (marks_bind _ _ [StepLabels] []).
  { apply marks_exact. intros w. unfold get_labels.
    by rewrite steps_trello_get. }
  intros lbls. apply marks_bind_silent; [silent|intros items].
  apply marks_silent. apply emits_loop. intros st.
  apply silent_select_labels_turn.
Qed.

Lemma marks_attempt : marks (attempt API_KEY TOKEN) workflow_order never.
Proof.
  unfold attempt. apply marks_bind_silent; [silent|intros _].
  apply (marks_weaken _ _ never); [|done].
  apply (marks_bind_when _ _ [StepBoards; StepBoardSelected]
           [StepLists; StepListSelected; StepCardDetails; StepLabels;
            StepLabelsSelected; StepCardCreation; StepComment]
           (fun v => truthy v = true) never);
    [apply marks_select_board| | |intros; destruct (truthy a); auto].
  2:{ intros board_id Hb. apply not_true_is_false in Hb. rewrite Hb.
      cbn [negb]. apply marks_silent. silent. }
  intros board_id ->. cbn [negb].
  apply (marks_bind_when _ _ [StepLists; StepListSelected]
           [StepCardDetails; StepLabels; StepLabelsSelected;
            StepCardCreation; StepComment]
           (fun v => truthy v = true) never);
    [apply marks_select_list| | |intros; destruct (truthy a); auto].
  2:{ intros list_id Hl. apply not_true_is_false in Hl. rewrite Hl.
      cbn [negb]. apply marks_silent. silent. }
  intros list_id ->. cbn [negb].
  apply (marks_bind _ _ [StepCardDetails]); [apply marks_get_card_details|].
  intros [card_title card_desc].
  apply (marks_bind _ _ [StepLabels]); [apply marks_select_labels|].
  intros selected_label_ids.
  apply (marks_bind _ _ [StepLabelsSelected]).
  { apply marks_print. by destruct selected_label_ids. }
  intros _. apply marks_bind_silent; [silent|intros label_ids].
  apply (marks_bind _ _ [StepCardCreation]).
  { apply marks_exact. intros w. unfold create_card.
    by rewrite steps_trello_post. }
  intros card. apply marks_bind_silent; [silent|intros add_comment_option].
  apply (marks_then_silent _ _ _ never); [|intros; silent].
  destruct add_comment_option; [|apply marks_ret_unless; tauto].
  apply marks_bind_silent; [silent|intros comment_text].
  apply marks_bind_silent; [silent|intros card_id].
  apply (marks_then_silent _ _ _ always); [|intros; silent].
  apply marks_exact. intros w. unfold add_comment.
  by rewrite steps_trello_post.
Qed.

(** C8.  In every turn of [add_card] the steps come in the order of
    [workflow_order]: boards, board selected, lists, column selected, card
    details, labels, labels selected, card creation, comment, each at most
    once and none without those before it.  So the request that creates
    the card comes after the four selections are settled, and the request
    that adds a comment comes after the one that creates the card. *)
Theorem iteration_steps_in_order w :
  steps_of (trace (iteration API_KEY TOKEN w)) `prefix_of` workflow_order
  /\ (forall pre e post,
        trace (iteration API_KEY TOKEN w) = pre ++ e :: post ->
        (step_of e = Some StepCardCreation ->
           steps_of pre
           = [StepBoards; StepBoardSelected; StepLists; StepListSelected;
              StepCardDetails; StepLabels; StepLabelsSelected])
        /\ (step_of e = Some StepComment ->
              steps_of pre
              = [StepBoards; StepBoardSelected; StepLists; StepListSelected;
                 StepCardDetails; StepLabels; StepLabelsSelected;
                 StepCardCreation])).
Proof.
  assert (steps_of (trace (iteration API_KEY TOKEN w)) `prefix_of` workflow_order)
    as Hprefix.
  { apply (marks_try_except _ _ _ marks_attempt silent_handlers w). }
  split; [done|]. intros pre e post Hsplit. rewrite Hsplit in Hprefix.
  rewrite steps_of_app in Hprefix. unfold steps_of at 2 in Hprefix.
  cbn [omap list_omap] in Hprefix.
  split; intros He; rewrite He in Hprefix.
  - apply (prefix_single_occurrence StepCardCreation _ _
             [StepBoards; StepBoardSelected; StepLists; StepListSelected;
              StepCardDetails; StepLabels; StepLabelsSelected]
             [StepComment]) in Hprefix; [done|not_in_list..].
  - apply (prefix_single_occurrence StepComment _ _
             [StepBoards; StepBoardSelected; StepLists; StepListSelected;
              StepCardDetails; StepLabels; StepLabelsSelected;
              StepCardCreation] []) in Hprefix; [done|not_in_list..].
Qed.

End Order.

(** ** Failures and the question to try again *)



Lemma raising_ret {A} (a : A) : raising (ret a).
Proof. by intros w e. Qed.

Lemma raising_print msg : raising (print msg).
Proof. by intros w e. Qed.

Lemma raising_lift {A} (r : result A) : mild r -> raising (lift r).
Proof. intros H w e. apply H. Qed.

Lemma raising_bind {A B} (m : M A) (f : A -> M B) :
  raising m -> (forall a, raising (f a)) -> raising (bind m f).
Proof.
  intros Hm Hf w e. rewrite bind_res. specialize (Hm w).
  destruct (res (m w)) as [a|e'|]; [apply Hf| |done].
  intros [= <-]. by apply Hm.
Qed.

Lemma raising_Prompt_ask text choices default :
  raising (Prompt_ask text choices default).
Proof.
  intros w e. unfold Prompt_ask, res.
  assert (forall lines,
            (ask_lines text choices default lines).1.1 = Raise e ->
            is_Exception e = true) as H.
  { induction lines as [|line rest IH]; cbn; [by intros [= <-]|].
    destruct (if String.eqb line "" then default else None); [done|].
    destruct (match choices with Some cs => str_in (strip line) cs | None => true end);
      [done|].
    by destruct (ask_lines text choices default rest) as [[??]?]. }
  specialize (H (stdin w)).
  by destruct (ask_lines text choices default (stdin w)) as [[??]?].
Qed.

Lemma raising_Confirm_ask text default : raising (Confirm_ask text default).
Proof.
  intros w e. unfold Confirm_ask, res.
  assert (forall lines,
            (confirm_lines text default lines).1.1 = Raise e ->
            is_Exception e = true) as H.
  { induction lines as [|line rest IH]; cbn -[str_in]; [by intros [= <-]|].
    destruct (if String.eqb line "" then default else None); [done|].
    destruct (str_in (lower (strip line)) ["y"; "n"]); [done|].
    by destruct (confirm_lines text default rest) as [[??]?]. }
  specialize (H (stdin w)).
  by destruct (confirm_lines text default (stdin w)) as [[??]?].
Qed.

Lemma raising_send req : raising (Requests.send req).
Proof.
  intros w e. unfold Requests.send, res.
  destruct (network w) as [|[r|] rest]; cbn; by try intros [= <-].
Qed.

Lemma raising_loop {S R} (body : S -> M (ctl S R)) s :
  (forall s, raising (body s)) -> raising (loop body s).
Proof.
  intros Hb w. unfold loop. generalize (Datatypes.S (length (stdin w))).
  intros fuel. revert s w. induction fuel as [|fuel IH]; intros s w e; [done|].
  cbn [while]. revert e. apply raising_bind; [done|].
  intros [s'|r]; [intros w' e'; apply IH|apply raising_ret].
Qed.

Lemma mild_dict_getitem {A} (d : list (string * A)) k : mild (dict_getitem d k).
Proof. intros e. unfold dict_getitem. destruct (dict_get d k); by intros [= <-]. Qed.

Lemma mild_getitem v k : mild (getitem v k).
Proof.
  destruct v; try (by intros e [= <-]). apply mild_dict_getitem.
Qed.

Lemma mild_iter v : mild (iter v).
Proof. destruct v; by intros e [= <-]. Qed.

Lemma mild_join sep xs : mild (join sep xs).
Proof.
  induction xs as [|x xs IH]; [done|]. cbn.
  destruct x; try (by intros e [= <-]). destruct xs; [done|].
  intros e. specialize (IH e). by destruct (join sep (_ :: _)).
Qed.

Lemma mild_name_rows choices : mild (name_rows choices).
Proof.
  induction choices as [|[idx item] choices IH]; [done|]. cbn. intros e.
  pose proof (mild_getitem item "name" e).
  destruct (getitem item "name"); [|by intros [= ->]; auto|done].
  specialize (IH e). by destruct (name_rows choices).
Qed.

Lemma mild_create_label_options choices : mild (create_label_options choices).
Proof.
  induction choices as [|[idx label] choices IH]; [done|]. cbn. intros e.
  pose proof (mild_getitem label "name" e).
  destruct (getitem label "name"); [|by intros [= ->]; auto|done].
  pose proof (mild_getitem label "color" e).
  destruct (getitem label "color"); [|by intros [= ->]; auto|done].
  specialize (IH e). by destruct (create_label_options choices).
Qed.

Lemma mild_raise_for_status r : mild (Requests.raise_for_status r).
Proof. intros e. unfold Requests.raise_for_status. case_match; by intros [= <-]. Qed.

Lemma mild_json r : mild (Requests.json r).
Proof. intros e. unfold Requests.json. case_match; by intros [= <-]. Qed.

Lemma raising_trello_get k t e p : raising (trello_get k t e p).
Proof.
  unfold trello_get.
  apply raising_bind; [apply raising_send|intros r].
  apply raising_bind; [apply raising_lift, mild_raise_for_status|intros _].
  apply raising_lift, mild_json.
Qed.

Lemma raising_trello_post k t e p : raising (trello_post k t e p).
Proof.
  unfold trello_post.
  apply raising_bind; [apply raising_send|intros r].
  apply raising_bind; [apply raising_lift, mild_raise_for_status|intros _].
  apply raising_lift, mild_json.
Qed.

Ltac raising_step :=
  match goal with
  | |- raising (bind _ _) => apply raising_bind; [|intros]
  | |- raising (ret _) => apply raising_ret
  | |- raising (print _) => apply raising_print
  | |- raising (Prompt_ask _ _ _) => apply raising_Prompt_ask
  | |- raising (Confirm_ask _ _) => apply raising_Confirm_ask
  | |- raising (trello_get _ _ _ _) => apply raising_trello_get
  | |- raising (trello_post _ _ _ _) => apply raising_trello_post
  | |- raising (loop _ _) => apply raising_loop; intros
  | |- raising (lift _) =>
      apply raising_lift;
      first [ apply mild_getitem | apply mild_dict_getitem | apply mild_iter
            | apply mild_join | apply mild_name_rows
            | apply mild_create_label_options ]
  | |- raising (if ?c then _ else _) => destruct c
  | |- raising (match ?x with _ => _ end) => destruct x
  | |- raising (let '(_, _) := ?x in _) => destruct x
  end.
Ltac raising := repeat raising_step.


Section Retry.

Variables API_KEY TOKEN : string.





End Retry.

(** ** One card, from one board and one column *)

Section OneCard.

Variables API_KEY TOKEN : string.

Lemma trello_get_ok e p v rest net :
  trello_get API_KEY TOKEN e p (mkWorld rest (ok v :: net))
  = (Ok v, mkWorld rest net,
     [EvHttp (Request GET TRELLO_API_BASE_URL e (with_fields API_KEY TOKEN p))]).
Proof.
  by rewrite (trello_get_reply _ _ e p (mkWorld rest (ok v :: net))
                (Response 200 (Some v)) net eq_refl).
Qed.









End OneCard.

(** ** The properties at work on a small session *)



Lemma iteration_steps_in_order_witness :
  let w :=
    mkWorld ["1"; "1"; "Test Card"; ""; "F"; "y"; "Nice"; "n"]
      [ok (VList [demo_board]); ok (VList [demo_list]); ok (VList []);
       ok demo_card; ok (VDict [("id", VStr "a1")])] in
  let t := trace (iteration "key" "token" w) in
  let e :=
    EvHttp (Request POST TRELLO_API_BASE_URL
              (cards_actions_comments (VStr "c1"))
              (with_fields "key" "token" (Some {[ "text" := VStr "Nice" ]}))) in
  t = take 27 t ++ e :: drop 28 t
  /\ step_of e = Some StepComment
  /\ steps_of (take 27 t)
     = [StepBoards; StepBoardSelected; StepLists; StepListSelected;
        StepCardDetails; StepLabels; StepLabelsSelected; StepCardCreation].
Proof.
  intros w t e.
  assert (t = take 27 t ++ e :: drop 28 t) as H1 by (vm_compute; reflexivity).
  assert (step_of e = Some StepComment) as H2 by reflexivity.
  split; [exact H1|]. split; [exact H2|].
  exact (proj2 (proj2 (iteration_steps_in_order "key" "token" w)
                  (take 27 t) e (drop 28 t) H1) H2).
Defined.


(** * Further properties of the code *)

(** ** The client: one request per call, with the credentials *)

Section Client.

Variables API_KEY TOKEN : string.

Lemma with_fields_credentials p :
  match p with Some extra => extra !! "key" = None /\ extra !! "token" = None
             | None => True end ->
  with_fields API_KEY TOKEN p !! "key" = Some (VStr API_KEY)
  /\ with_fields API_KEY TOKEN p !! "token" = Some (VStr TOKEN).
Proof.
  unfold with_fields, credentials. destruct p as [extra|]; [|by split].
  intros [Hk Ht]. case_decide; [by split|].
  split; rewrite lookup_union_r by done; done.
Qed.

Lemma trello_get_run e p w :
  exists r,
    trello_get API_KEY TOKEN e p w
    = (r, mkWorld (stdin w) (tail (network w)),
       [EvHttp (Request GET TRELLO_API_BASE_URL e (with_fields API_KEY TOKEN p))]).
Proof.
  unfold trello_get, bind, Requests.send, lift.
  destruct w as [ins [|[r|] net]]; cbn; [by eexists| |by eexists].
  destruct (Requests.raise_for_status r); [|by eexists..].
  destruct (Requests.json r); by eexists.
Qed.

Lemma trello_post_run e p w :
  exists r,
    trello_post API_KEY TOKEN e p w
    = (r, mkWorld (stdin w) (tail (network w)),
       [EvHttp (Request POST TRELLO_API_BASE_URL e (with_fields API_KEY TOKEN p))]).
Proof.
  unfold trello_post, bind, Requests.send, lift.
  destruct w as [ins [|[r|] net]]; cbn; [by eexists| |by eexists].
  destruct (Requests.raise_for_status r); [|by eexists..].
  destruct (Requests.json r); by eexists.
Qed.

(** X1.  Whatever the reply, an operation of the client sends exactly one
    request: to the base URL of the API, with the key and the token among
    its fields.  It takes one reply from the network and reads nothing
    from the terminal. *)
Theorem perform_one_request op w :
  exists req,
    trace (perform API_KEY TOKEN op w) = [EvHttp req]
    /\ req_base req = TRELLO_API_BASE_URL
    /\ req_fields req !! "key" = Some (VStr API_KEY)
    /\ req_fields req !! "token" = Some (VStr TOKEN)
    /\ after (perform API_KEY TOKEN op w)
       = mkWorld (stdin w) (tail (network w)).
Proof.
  destruct op; cbn [perform];
    unfold get_boards, get_lists, get_labels, create_label, create_card,
      add_comment;
    match goal with
    | |- context [trello_get _ _ ?e ?p w] =>
        destruct (trello_get_run e p w) as [r ->]
    | |- context [trello_post _ _ ?e ?p w] =>
        destruct (trello_post_run e p w) as [r ->]
    end;
    eexists; (split; [reflexivity|]); (split; [reflexivity|]);
    cbn [req_fields trace after fst snd];
    (split; [|split; [|reflexivity]]);
    apply with_fields_credentials; try done.
  all: unfold create_card_data; case_match; done.
Qed.

End Client.

(** ** The workflow: every request carries the credentials *)

Lemma emits_try_except {A} P (m : M A) (h : exn -> option (M A)) :
  emits P m -> (forall e k, h e = Some k -> emits P k) ->
  emits P (try_except m h).
Proof.
  intros Hm Hh w. specialize (Hm w). unfold try_except, trace in *.
  destruct (m w) as [[[a|e|] w1] t1]; cbn [snd] in *; [done| |done].
  destruct (h e) as [k|] eqn:E; [|done].
  specialize (Hh e k E w1). unfold trace in Hh.
  destruct (k w1) as [[r w2] t2]; cbn [snd] in *.
  apply Forall_app. by split.
Qed.

Section Credentials.

Variables API_KEY TOKEN : string.

Lemma emits_trello_get e p :
  match p with Some extra => extra !! "key" = None /\ extra !! "token" = None
             | None => True end ->
  emits (credentialed API_KEY TOKEN) (trello_get API_KEY TOKEN e p).
Proof.
  intros Hp w. rewrite trello_get_trace. repeat constructor.
  all: by apply with_fields_credentials.
Qed.

Lemma emits_trello_post e p :
  match p with Some extra => extra !! "key" = None /\ extra !! "token" = None
             | None => True end ->
  emits (credentialed API_KEY TOKEN) (trello_post API_KEY TOKEN e p).
Proof.
  intros Hp w. rewrite trello_post_trace. repeat constructor.
  all: by apply with_fields_credentials.
Qed.

(** Events other than requests are of no concern here. *)
Ltac credentialed_step :=
  match goal with
  | |- emits _ (bind _ _) => apply emits_bind; [|intros]
  | |- emits _ (ret _) => apply emits_ret
  | |- emits _ (lift _) => apply emits_lift
  | |- emits _ (print _) => apply emits_print; exact I
  | |- emits _ (Prompt_ask _ _ _) =>
      apply emits_Prompt_ask; [exact I|intros; exact I|exact I]
  | |- emits _ (Confirm_ask _ _) =>
      apply emits_Confirm_ask; [exact I|intros; exact I|exact I]
  | |- emits _ (loop _ _) => apply emits_loop; intros
  | |- emits _ (trello_get _ _ _ _) => apply emits_trello_get; by split
  | |- emits _ (trello_post _ _ _ _) => apply emits_trello_post
  | |- emits _ (if ?c then _ else _) => destruct c
  | |- emits _ (let '(_, _) := ?x in _) => destruct x
  end.

Lemma emits_credentialed_attempt :
  emits (credentialed API_KEY TOKEN) (attempt API_KEY TOKEN).
Proof.
  unfold attempt, select_board, select_list, get_card_details, select_labels,
    select_labels_turn, create_new_label, card_title_turn, label_name_turn,
    get_boards, get_lists, get_labels, create_label, create_card, add_comment.
  repeat credentialed_step.
  all: try (by split).
  all: unfold create_card_data; case_match; by split.
Qed.

(** X2.  In every run of [add_card], each request that is sent goes to the
    base URL of the API and has the key and the token among its fields. *)
Theorem add_card_requests_credentialed w req :
  EvHttp req ∈ trace (add_card API_KEY TOKEN w) ->
  req_base req = TRELLO_API_BASE_URL
  /\ req_fields req !! "key" = Some (VStr API_KEY)
  /\ req_fields req !! "token" = Some (VStr TOKEN).
Proof.
  intros Hin.
  assert (emits (credentialed API_KEY TOKEN) (add_card API_KEY TOKEN)) as H.
  { unfold add_card. apply emits_loop. intros _.
    apply emits_try_except; [apply emits_credentialed_attempt|].
    intros e k. unfold handlers.
    repeat case_match; intros [= <-]; repeat credentialed_step. }
  specialize (H w). rewrite Forall_forall in H. apply (H _ Hin).
Qed.

End Credentials.

(** ** No exception leaves the workflow but the end of the input *)






Section Escapes.

Variables API_KEY TOKEN : string.




End Escapes.

(** ** Menus and the choice of an entry *)

Lemma enumerate1_from {A} (xs : list A) k :
  imap (fun i x => (pretty (S (k + i)), x)) xs
  = zip (map pretty (seq (S k) (length xs))) xs.
Proof.
  revert k. induction xs as [|x xs IH]; intros k; [done|].
  cbn. rewrite Nat.add_0_r. f_equal.
  rewrite <- (IH (S k)). apply imap_ext. intros i y _. cbn.
  do 2 f_equal. lia.
Qed.

Lemma enumerate1_zip {A} (xs : list A) :
  enumerate1 xs = zip (map pretty (seq 1 (length xs))) xs.
Proof. apply (enumerate1_from xs 0). Qed.






Lemma name_rows_missing (d1 d2 : list (string * value)) k bad e :
  Forall (fun kv => exists name, getitem kv.2 "name" = Ok name) d1 ->
  getitem bad "name" = Raise e ->
  name_rows (d1 ++ (k, bad) :: d2) = Raise e.
Proof.
  intros H Hbad. induction H as [|[k' item] d1 [name Hn] _ IH]; cbn in *.
  - by rewrite Hbad.
  - by rewrite Hn, IH.
Qed.

Lemma enumerate1_app {A} (xs : list A) y zs :
  exists d2,
    enumerate1 (xs ++ y :: zs)
    = enumerate1 xs ++ (pick (length xs), y) :: d2.
Proof.
  unfold enumerate1. rewrite imap_app. cbn. rewrite Nat.add_0_r.
  by eexists.
Qed.

Lemma Forall_enumerate1 {A} (P : A -> Prop) (xs : list A) :
  Forall P xs -> Forall (fun kv => P kv.2) (enumerate1 xs).
Proof.
  intros H. rewrite enumerate1_zip. generalize (map pretty (seq 1 (length xs))).
  induction H as [|x xs Hx _ IH]; intros [|k ks]; cbn; constructor; auto.
Qed.






(** ** Choosing a board and a column *)

Section Choose.

Variables API_KEY TOKEN : string.






(** X6.  The menu of boards is built from the names of all the boards
    before anything is asked: when one board has no name, [select_board]
    raises the error of that lookup, shows no menu and reads no line,
    whichever board the user would have chosen. *)
Theorem select_board_missing_name pre bad post e ins net :
  Forall (fun b => exists n, getitem b "name" = Ok n) pre ->
  getitem bad "name" = Raise e ->
  select_board API_KEY TOKEN
    (mkWorld ins (ok (VList (pre ++ bad :: post)) :: net))
  = (Raise e, mkWorld ins net,
     [EvHttp (get_request API_KEY TOKEN members_me_boards "name,id")]).
Proof.
  intros Hpre Hbad. unfold select_board, get_boards.
  eapply run_bind; [apply trello_get_ok| |reflexivity].
  replace (truthy (VList (pre ++ bad :: post))) with true by (by destruct pre).
  cbn [negb].
  eapply run_bind; [apply run_lift| |reflexivity].
  apply run_bind_Raise.
  destruct (enumerate1_app pre bad post) as [d2 ->].
  rewrite (name_rows_missing _ d2 _ bad e); [apply run_lift| |done].
  by apply (Forall_enumerate1 (fun b => exists n, getitem b "name" = Ok n)).
Qed.

(** X7.  When the API returns no board (an empty list, or any payload
    that Python takes for false), [select_board] says so and returns
    [None] without asking; the turn of [add_card] then asks whether to try
    again, and sends no other request. *)
Theorem iteration_no_boards boards ins net yes w2 t2 :
  truthy boards = false ->
  Confirm_ask no_board_prompt (Some true) (mkWorld ins net) = (Ok yes, w2, t2) ->
  select_board API_KEY TOKEN (mkWorld ins (ok boards :: net))
  = (Ok VNone, mkWorld ins net,
     [EvHttp (get_request API_KEY TOKEN members_me_boards "name,id");
      EvPrint MsgNoBoards])
  /\ iteration API_KEY TOKEN (mkWorld ins (ok boards :: net))
     = (Ok (again yes), w2,
        [EvPrint MsgNewline;
         EvHttp (get_request API_KEY TOKEN members_me_boards "name,id");
         EvPrint MsgNoBoards] ++ t2).
Proof.
  intros Hb Hask.
  assert (select_board API_KEY TOKEN (mkWorld ins (ok boards :: net))
          = (Ok VNone, mkWorld ins net,
             [EvHttp (get_request API_KEY TOKEN members_me_boards "name,id");
              EvPrint MsgNoBoards])) as Hsel.
  { unfold select_board, get_boards.
    eapply run_bind; [apply trello_get_ok| |reflexivity].
    rewrite Hb. cbn [negb].
    eapply run_bind; [apply run_print|apply run_ret|reflexivity]. }
  split; [done|].
  unfold iteration, try_except.
  assert (attempt API_KEY TOKEN (mkWorld ins (ok boards :: net))
          = (Ok (again yes), w2,
             [EvPrint MsgNewline;
              EvHttp (get_request API_KEY TOKEN members_me_boards "name,id");
              EvPrint MsgNoBoards] ++ t2)) as ->; [|done].
  unfold attempt.
  eapply run_bind; [apply run_print| |reflexivity].
  eapply run_bind; [apply Hsel| |reflexivity].
  cbn [truthy negb].
  eapply run_bind; [apply Hask|apply run_ret|].
  by rewrite app_nil_r.
Qed.

(** X8.  When the board has no column, [select_list] says so and returns
    [None] without asking; in [add_card], after a board has been selected,
    the turn then asks whether to try again and sends no other request. *)
Theorem iteration_no_lists w board_id t1 lists ins net yes w2 t2 :
  select_board API_KEY TOKEN w
  = (Ok board_id, mkWorld ins (ok lists :: net), t1) ->
  truthy board_id = true ->
  truthy lists = false ->
  Confirm_ask no_list_prompt (Some true) (mkWorld ins net) = (Ok yes, w2, t2) ->
  select_list API_KEY TOKEN board_id (mkWorld ins (ok lists :: net))
  = (Ok VNone, mkWorld ins net,
     [EvHttp (get_request API_KEY TOKEN (boards_lists board_id) "name,id");
      EvPrint MsgNoColumns])
  /\ iteration API_KEY TOKEN w
     = (Ok (again yes), w2,
        EvPrint MsgNewline :: t1
        ++ [EvHttp (get_request API_KEY TOKEN (boards_lists board_id) "name,id");
            EvPrint MsgNoColumns] ++ t2).
Proof.
  intros Hboard Hb Hl Hask.
  assert (select_list API_KEY TOKEN board_id (mkWorld ins (ok lists :: net))
          = (Ok VNone, mkWorld ins net,
             [EvHttp (get_request API_KEY TOKEN (boards_lists board_id)
                        "name,id");
              EvPrint MsgNoColumns])) as Hsel.
  { unfold select_list, get_lists.
    eapply run_bind; [apply trello_get_ok| |reflexivity].
    rewrite Hl. cbn [negb].
    eapply run_bind; [apply run_print|apply run_ret|reflexivity]. }
  split; [done|].
  unfold iteration, try_except.
  assert (attempt API_KEY TOKEN w
          = (Ok (again yes), w2,
             EvPrint MsgNewline :: t1
             ++ [EvHttp (get_request API_KEY TOKEN (boards_lists board_id)
                           "name,id");
                 EvPrint MsgNoColumns] ++ t2)) as ->; [|done].
  unfold attempt.
  eapply run_bind; [apply run_print| |reflexivity].
  eapply run_bind; [apply Hboard| |reflexivity].
  rewrite Hb. cbn [negb].
  eapply run_bind; [apply Hsel| |reflexivity].
  cbn [truthy negb].
  eapply run_bind; [apply Hask|apply run_ret|].
  by rewrite app_nil_r.
Qed.

End Choose.

(** ** Selecting labels, turn after turn *)

(** X9.  The menu of labels has one row for each label, in the order of
    the labels and with the number of each; a label is shown with its name
    and its colour, where a name that is null or empty is replaced by
    No Name and such a colour by No Color. *)
Theorem create_label_options_rows choices rows :
  create_label_options choices = Ok rows ->
  map (fun row => row.1.1) rows = map fst choices
  /\ forall i idx label n c,
       choices !! i = Some (idx, label) ->
       getitem label "name" = Ok n -> getitem label "color" = Ok c ->
       rows !! i
       = Some (idx,
               if truthy n then n else VStr "No Name",
               if truthy c then c else VStr "No Color").
Proof.
  revert rows. induction choices as [|[idx0 label0] choices IH]; intros rows.
  - intros [= <-]. split; [done|]. by intros i.
  - cbn [create_label_options].
    destruct (getitem label0 "name") as [n0| |] eqn:Hn0; [|done..].
    destruct (getitem label0 "color") as [c0| |] eqn:Hc0; [|done..].
    destruct (create_label_options choices) as [rows'| |]; [|done..].
    intros [= <-]. destruct (IH rows' eq_refl) as [IH1 IH2].
    split; [cbn; by rewrite IH1|].
    intros [|i] idx label n c Hi Hn Hc.
    + cbn in Hi. injection Hi as <- <-.
      rewrite Hn0 in Hn. rewrite Hc0 in Hc.
      injection Hn as <-. injection Hc as <-. reflexivity.
    + cbn in Hi. cbn. by apply (IH2 i idx label).
Qed.

Section Labels.

Variables API_KEY TOKEN : string.







End Labels.

(** ** Creating a label *)

Section CreateLabel.

Variables API_KEY TOKEN : string.



End CreateLabel.

(** ** The credentials *)

(** X13.  A credential that is set in the environment to the empty string
    counts as missing, whatever the [.env] file says: the process prints
    the error and exits with status 1. *)
Theorem main_exits_on_empty_credential dotenv environ w :
  environ !! "TRELLO_API_KEY" = Some ""
  \/ environ !! "TRELLO_TOKEN" = Some "" ->
  main dotenv environ w
  = (Raise (SystemExit 1), w, [EvPrint MsgCredentialsError]).
Proof.
  intros H. unfold main, api_module, load_dotenv.
  assert (unset ((environ ∪ dotenv) !! "TRELLO_API_KEY")
          || unset ((environ ∪ dotenv) !! "TRELLO_TOKEN") = true) as ->.
  { apply orb_true_iff.
    destruct H as [H|H]; [left|right];
      by rewrite (lookup_union_Some_l _ _ _ _ H). }
  reflexivity.
Qed.

(** X14.  Each credential is taken from the environment when it is set
    there and from the [.env] file otherwise; when both are found and not
    empty, the process is [add_card] with these two credentials. *)
Theorem main_runs_with_credentials dotenv environ key token w :
  match environ !! "TRELLO_API_KEY" with
  | Some v => Some v
  | None => dotenv !! "TRELLO_API_KEY"
  end = Some key ->
  match environ !! "TRELLO_TOKEN" with
  | Some v => Some v
  | None => dotenv !! "TRELLO_TOKEN"
  end = Some token ->
  key <> "" -> token <> "" ->
  main dotenv environ w = add_card key token w.
Proof.
  intros Hk Ht Hkne Htne. unfold main, api_module, load_dotenv.
  assert ((environ ∪ dotenv) !! "TRELLO_API_KEY" = Some key) as ->.
  { rewrite lookup_union.
    destruct (environ !! "TRELLO_API_KEY");
      [injection Hk as ->; apply union_Some_l|rewrite Hk; reflexivity]. }
  assert ((environ ∪ dotenv) !! "TRELLO_TOKEN" = Some token) as ->.
  { rewrite lookup_union.
    destruct (environ !! "TRELLO_TOKEN");
      [injection Ht as ->; apply union_Some_l|rewrite Ht; reflexivity]. }
  unfold unset. apply String.eqb_neq in Hkne, Htne. rewrite Hkne, Htne.
  cbn [orb]. rewrite bind_ret. reflexivity.
Qed.

(** ** After a failure *)

Section AfterFailure.

Variables API_KEY TOKEN : string.




End AfterFailure.

(** ** From the choices to the card *)



Section ChosenCard.

Variables API_KEY TOKEN : string.



End ChosenCard.

(** ** The comment *)


Section Comment.

Variables API_KEY TOKEN : string.


End Comment.

(** ** The further properties on small sessions *)

Lemma add_card_requests_credentialed_witness :
  let w :=
    mkWorld ["1"; "1"; "Test Card"; ""; "F"; "n"; "n"]
      [ok (VList [demo_board]); ok (VList [demo_list]); ok (VList []);
       ok demo_card] in
  let req :=
    Request POST TRELLO_API_BASE_URL cards
      (with_fields "key" "token"
         (Some (create_card_data (VStr "l1") "Test Card" "" ""))) in
  EvHttp req ∈ trace (add_card "key" "token" w)
  /\ req_base req = TRELLO_API_BASE_URL
  /\ req_fields req !! "key" = Some (VStr "key")
  /\ req_fields req !! "token" = Some (VStr "token").
Proof.
  intros w req.
  assert (EvHttp req ∈ trace (add_card "key" "token" w)) as H.
  { apply (list_elem_of_lookup_2 _ 22). vm_compute. reflexivity. }
  split; [exact H|].
  exact (add_card_requests_credentialed "key" "token" w req H).
Defined.



Lemma select_board_missing_name_witness :
  let bad := VDict [("id", VStr "b2")] in
  Forall (fun b => exists n, getitem b "name" = Ok n) [demo_board]
  /\ getitem bad "name" = Raise (KeyError "name")
  /\ select_board "key" "token"
       (mkWorld ["1"] [ok (VList ([demo_board] ++ bad :: []))])
     = (Raise (KeyError "name"), mkWorld ["1"] [],
        [EvHttp (get_request "key" "token" members_me_boards "name,id")]).
Proof.
  intros bad.
  assert (Forall (fun b => exists n, getitem b "name" = Ok n) [demo_board])
    as H1 by (repeat constructor; by eexists).
  split; [exact H1|]. split; [reflexivity|].
  exact (select_board_missing_name "key" "token" [demo_board] bad []
           (KeyError "name") ["1"] [] H1 eq_refl).
Defined.

Lemma iteration_no_boards_witness :
  truthy (VList []) = false
  /\ Confirm_ask no_board_prompt (Some true) (mkWorld ["n"] [])
     = (Ok false, mkWorld [] [], [EvPrompt no_board_prompt; EvInput "n"])
  /\ select_board "key" "token" (mkWorld ["n"] [ok (VList [])])
     = (Ok VNone, mkWorld ["n"] [],
        [EvHttp (get_request "key" "token" members_me_boards "name,id");
         EvPrint MsgNoBoards])
  /\ iteration "key" "token" (mkWorld ["n"] [ok (VList [])])
     = (Ok (again false), mkWorld [] [],
        [EvPrint MsgNewline;
         EvHttp (get_request "key" "token" members_me_boards "name,id");
         EvPrint MsgNoBoards]
        ++ [EvPrompt no_board_prompt; EvInput "n"]).
Proof.
  do 2 (split; [reflexivity|]).
  exact (iteration_no_boards "key" "token" (VList []) ["n"] [] false
           (mkWorld [] []) [EvPrompt no_board_prompt; EvInput "n"]
           eq_refl eq_refl).
Defined.

Lemma iteration_no_lists_witness :
  let w := mkWorld ["1"; "n"] [ok (VList [demo_board]); ok (VList [])] in
  let t1 :=
    [EvHttp (get_request "key" "token" members_me_boards "name,id");
     EvPrint (MsgBoardPanel [("1", VStr "Test Board")]);
     EvPrompt board_prompt; EvInput "1";
     EvPrint (MsgSelectedBoard (VStr "Test Board"))] in
  let t2 := [EvPrompt no_list_prompt; EvInput "n"] in
  select_board "key" "token" w
  = (Ok (VStr "b1"), mkWorld ["n"] (ok (VList []) :: []), t1)
  /\ truthy (VStr "b1") = true
  /\ truthy (VList []) = false
  /\ Confirm_ask no_list_prompt (Some true) (mkWorld ["n"] [])
     = (Ok false, mkWorld [] [], t2)
  /\ select_list "key" "token" (VStr "b1") (mkWorld ["n"] (ok (VList []) :: []))
     = (Ok VNone, mkWorld ["n"] [],
        [EvHttp (get_request "key" "token" (boards_lists (VStr "b1")) "name,id");
         EvPrint MsgNoColumns])
  /\ iteration "key" "token" w
     = (Ok (again false), mkWorld [] [],
        EvPrint MsgNewline :: t1
        ++ [EvHttp (get_request "key" "token" (boards_lists (VStr "b1"))
                      "name,id");
            EvPrint MsgNoColumns] ++ t2).
Proof.
  intros w t1 t2.
  assert (select_board "key" "token" w
          = (Ok (VStr "b1"), mkWorld ["n"] (ok (VList []) :: []), t1)) as H1
    by (vm_compute; reflexivity).
  split; [exact H1|]. do 3 (split; [reflexivity|]).
  exact (iteration_no_lists "key" "token" w (VStr "b1") t1 (VList []) ["n"] []
           false (mkWorld [] []) t2 H1 eq_refl eq_refl eq_refl).
Defined.




Lemma main_exits_on_empty_credential_witness :
  let environ : gmap string string :=
    {[ "TRELLO_API_KEY" := ""; "TRELLO_TOKEN" := "tok" ]} in
  let dotenv : gmap string string := {[ "TRELLO_API_KEY" := "abc" ]} in
  environ !! "TRELLO_API_KEY" = Some ""
  /\ main dotenv environ (mkWorld ["1"] [])
     = (Raise (SystemExit 1), mkWorld ["1"] [], [EvPrint MsgCredentialsError]).
Proof.
  intros environ dotenv.
  assert (environ !! "TRELLO_API_KEY" = Some "") as H by reflexivity.
  split; [exact H|].
  exact (main_exits_on_empty_credential dotenv environ (mkWorld ["1"] [])
           (or_introl H)).
Defined.

Lemma main_runs_with_credentials_witness :
  let environ : gmap string string := {[ "TRELLO_API_KEY" := "abc" ]} in
  let dotenv : gmap string string :=
    {[ "TRELLO_API_KEY" := "zzz"; "TRELLO_TOKEN" := "tok" ]} in
  match environ !! "TRELLO_API_KEY" with
  | Some v => Some v
  | None => dotenv !! "TRELLO_API_KEY"
  end = Some "abc"
  /\ match environ !! "TRELLO_TOKEN" with
     | Some v => Some v
     | None => dotenv !! "TRELLO_TOKEN"
     end = Some "tok"
  /\ "abc" <> "" /\ "tok" <> ""
  /\ main dotenv environ (mkWorld [] []) = add_card "abc" "tok" (mkWorld [] []).
Proof.
  intros environ dotenv.
  assert ("abc" <> "") as H1 by discriminate.
  assert ("tok" <> "") as H2 by discriminate.
  do 2 (split; [reflexivity|]). split; [exact H1|]. split; [exact H2|].
  exact (main_runs_with_credentials dotenv environ "abc" "tok" (mkWorld [] [])
           eq_refl eq_refl H1 H2).
Defined.





Lemma create_label_options_rows_witness :
  let rows := [("1", VStr "Bug", VStr "red");
               ("2", VStr "No Name", VStr "No Color")] in
  create_label_options (enumerate1 demo_labels) = Ok rows
  /\ map (fun row => row.1.1) rows = map fst (enumerate1 demo_labels).
Proof.
  intros rows.
  assert (create_label_options (enumerate1 demo_labels) = Ok rows) as H
    by reflexivity.
  split; [exact H|].
  exact (proj1 (create_label_options_rows (enumerate1 demo_labels) rows H)).
Defined.
